(** * KeybusReaderIP (esp32): the Keybus-to-telnet bridging loop

    A shallow embedding of [examples/esp32/KeybusReaderIP/KeybusReaderIP.ino]:
    the telnet filter on inbound client bytes, the timestamp formatter, the
    per-iteration body of the client session, and the outer [loop()].

    The sketch is single-threaded; everything it does not decide itself (what
    the decoder's [loop()] reports, which bytes have arrived on the socket,
    whether the socket is still connected, what [millis()] returns) is given
    to the model as an explicit environment value for the call concerned. *)

From Stdlib Require Import ZArith QArith Qpower List Bool Lia.
From Stdlib Require Import Strings.String Strings.Ascii Strings.Byte.
From Stdlib Require Import Numbers.DecimalString.
From Stdlib Require Import Floats.SpecFloat.
Import ListNotations.

Local Open Scope Z_scope.

(** ** IEEE 754 arithmetic of the sketch

    [float] on the esp32 is binary32 and [double] is binary64.  The operations
    are the ones of the Standard Library's executable specification of
    IEEE 754 ([SpecFloat]), instantiated at the two formats. *)
Module F32.
Definition prec : Z := 24.
Definition emax : Z := 128.
Definition normalize (m e : Z) : spec_float := binary_normalize prec emax m e false.
Definition of_Z (n : Z) : spec_float := normalize n 0.
Definition valid (x : spec_float) : bool := valid_binary prec emax x.
End F32.

Module F64.
Definition prec : Z := 53.
Definition emax : Z := 1024.
Definition normalize (m e : Z) : spec_float := binary_normalize prec emax m e false.
Definition of_Z (n : Z) : spec_float := normalize n 0.
Definition add : spec_float -> spec_float -> spec_float := SFadd prec emax.
Definition sub : spec_float -> spec_float -> spec_float := SFsub prec emax.
Definition mul : spec_float -> spec_float -> spec_float := SFmul prec emax.
Definition div : spec_float -> spec_float -> spec_float := SFdiv prec emax.
End F64.

(** Conversion between the two formats: the value is rounded (to nearest,
    ties to even) into the target format.  Widening is exact. *)
Definition convert (norm : Z -> Z -> spec_float) (x : spec_float) : spec_float :=
  match x with
  | S754_finite s m e => norm (if s then Z.neg m else Z.pos m) e
  | _ => x
  end.

Definition double_to_float : spec_float -> spec_float := convert F32.normalize.
Definition float_to_double : spec_float -> spec_float := convert F64.normalize.

(** C conversion of a floating-point value to an integer type: truncation
    towards zero. *)
Definition trunc (x : spec_float) : Z :=
  match x with
  | S754_finite s m e =>
      let a := if 0 <=? e then Z.shiftl (Z.pos m) e else Z.shiftr (Z.pos m) (- e) in
      if s then - a else a
  | _ => 0
  end.

(** Decimal rendering of a non-negative integer ([Print::print(unsigned long)]). *)
Definition print_uint (n : Z) : string := NilZero.string_of_uint (N.to_uint (Z.to_N n)).

(** [Print::printFloat(double number, uint8_t digits)] of the Arduino core,
    which is what [ipClient.print(timeStamp, 2)] runs.  The fractional digits
    are produced by the loop [while (digits-- > 0)]. *)
Fixpoint printFloat_digits (digits : nat) (remainder : spec_float) : string :=
  match digits with
  | O => EmptyString
  | S digits' =>
      let remainder := F64.mul remainder (F64.of_Z 10) in
      let toPrint := trunc remainder in
      let remainder := F64.sub remainder (F64.of_Z toPrint) in
      (print_uint toPrint ++ printFloat_digits digits' remainder)%string
  end.

Fixpoint printFloat_rounding (digits : nat) (rounding : spec_float) : spec_float :=
  match digits with
  | O => rounding
  | S digits' => printFloat_rounding digits' (F64.div rounding (F64.of_Z 10))
  end.

Definition printFloat_abs (number : spec_float) (digits : nat) : string :=
  let rounding := printFloat_rounding digits (F64.normalize 1 (-1)) in
  let number := F64.add number rounding in
  let int_part := trunc number in
  let remainder := F64.sub number (F64.of_Z int_part) in
  (print_uint int_part
     ++ (if (0 <? Z.of_nat digits)%Z then "." else "")
     ++ printFloat_digits digits remainder)%string.

Definition printFloat (number : spec_float) (digits : nat) : string :=
  match number with
  | S754_nan => "nan"%string
  | S754_infinity _ => "inf"%string
  | _ =>
      if SFltb (F64.of_Z 4294967040) number then "ovf"%string
      else if SFltb number (F64.of_Z (-4294967040)) then "ovf"%string
      else if SFltb number (S754_zero false)
           then ("-" ++ printFloat_abs (SFopp number) digits)%string
           else printFloat_abs number digits
  end.

(** ** The world of the sketch

    The globals of the sketch ([dsc], [ipClient], the function-static
    [newClient]) together with a record of what the sketch did to its
    collaborators: the keys handed to [dsc.write], what was printed on the
    client stream and on [Serial], and how often [dsc.loop()] was called. *)

(** One [print] call on the client stream.  [dsc.begin(ipClient)] makes the
    decoder print on the same stream, so the decoder's texts are kept apart
    from the sketch's own literals. *)
Inductive TxItem : Type :=
| Lit (s : string)          (* ipClient.print("...") / ipClient.printf("...") *)
| Dsc (s : string)          (* dsc.printPanelBinary() and its siblings *)
| Num (x : spec_float).     (* ipClient.print(timeStamp, 2) *)

Definition render (i : TxItem) : string :=
  match i with
  | Lit s => s
  | Dsc s => s
  | Num x => printFloat (float_to_double x) 2
  end.

(** The characters that reach the client for a sequence of print calls. *)
Definition stream (tx : list TxItem) : string :=
  fold_right (fun i acc => (render i ++ acc)%string) EmptyString tx.

Record State : Type := mkState {
  keybusChanged   : bool;        (* dsc.keybusChanged *)
  keybusConnected : bool;        (* dsc.keybusConnected *)
  bufferOverflow  : bool;        (* dsc.bufferOverflow *)
  written         : list byte;   (* arguments of dsc.write, oldest first *)
  polls           : nat;         (* number of dsc.loop() calls so far *)
  clientOpen      : bool;        (* ipClient holds a socket *)
  rx              : list byte;   (* bytes available on ipClient, next first *)
  tx              : list TxItem; (* print calls on the client stream *)
  serial          : list string; (* Serial.println lines *)
  newClient       : bool         (* static bool newClient *)
}.

Definition set_keybusChanged (b : bool) (s : State) : State :=
  mkState b (keybusConnected s) (bufferOverflow s) (written s) (polls s)
          (clientOpen s) (rx s) (tx s) (serial s) (newClient s).
Definition set_bufferOverflow (b : bool) (s : State) : State :=
  mkState (keybusChanged s) (keybusConnected s) b (written s) (polls s)
          (clientOpen s) (rx s) (tx s) (serial s) (newClient s).
Definition set_rx (l : list byte) (s : State) : State :=
  mkState (keybusChanged s) (keybusConnected s) (bufferOverflow s) (written s) (polls s)
          (clientOpen s) l (tx s) (serial s) (newClient s).
Definition set_newClient (b : bool) (s : State) : State :=
  mkState (keybusChanged s) (keybusConnected s) (bufferOverflow s) (written s) (polls s)
          (clientOpen s) (rx s) (tx s) (serial s) b.

(** The state at power-up: [static bool newClient = true], nothing done yet. *)
Definition initial : State :=
  mkState false false false [] 0 false [] [] [] true.

(** *** The decoder ([dscKeybusInterface]) *)

(** What one call of [dsc.loop()] does, as far as the sketch can see. *)
Record Poll : Type := mkPoll {
  p_ret       : bool;   (* the value returned by dsc.loop() *)
  p_changed   : bool;   (* the call detected a connection-state transition *)
  p_connected : bool;   (* the Keybus is connected, as of this call *)
  p_overflow  : bool    (* the data buffer has overflowed since the last call *)
}.

(** Modelled from the spec: the body of [dscKeybusInterface::loop()] (the
    library is not part of the sketch's file).  Section 6: [poll() -> bool] is
    non-blocking; [busChanged] and [bufferOverflow] are edge-triggered flags
    that the caller must clear, so the decoder only ever raises them;
    [busConnected] is a level. *)
Definition dsc_loop (p : Poll) (s : State) : bool * State :=
  (p_ret p,
   mkState (keybusChanged s || p_changed p) (p_connected p)
           (bufferOverflow s || p_overflow p) (written s) (S (polls s))
           (clientOpen s) (rx s) (tx s) (serial s) (newClient s)).

(** Modelled from the spec: [dscKeybusInterface::write(const char)], which
    is not in the sketch's file.  Section 6: [write(byte)] injects one
    virtual-keypad keystroke; the keys handed over are recorded in order. *)
Definition dsc_write (c : byte) (s : State) : State :=
  mkState (keybusChanged s) (keybusConnected s) (bufferOverflow s) (written s ++ [c]) (polls s)
          (clientOpen s) (rx s) (tx s) (serial s) (newClient s).

(** *** The client stream ([WiFiClient]) and [Serial] *)

Definition client_emit (i : TxItem) (s : State) : State :=
  mkState (keybusChanged s) (keybusConnected s) (bufferOverflow s) (written s) (polls s)
          (clientOpen s) (rx s) (tx s ++ [i]) (serial s) (newClient s).

Definition client_print (text : string) : State -> State := client_emit (Lit text).
Definition dsc_print (text : string) : State -> State := client_emit (Dsc text).

Definition Serial_println (line : string) (s : State) : State :=
  mkState (keybusChanged s) (keybusConnected s) (bufferOverflow s) (written s) (polls s)
          (clientOpen s) (rx s) (tx s) (serial s ++ [line]) (newClient s).

(** [ipClient.available()]: the number of bytes that can be read now. *)
Definition client_available (s : State) : Z := Z.of_nat (List.length (rx s)).

Definition byte_to_int (b : byte) : Z := Z.of_N (Byte.to_N b).

(** [ipClient.peek()] and [ipClient.read()] return an [int]: the next byte,
    or -1 when nothing is available; [read] removes the byte it returns. *)
Definition client_peek (s : State) : Z :=
  match rx s with
  | [] => -1
  | b :: _ => byte_to_int b
  end.

Definition client_read (s : State) : Z * State :=
  match rx s with
  | [] => (-1, s)
  | b :: rest => (byte_to_int b, set_rx rest s)
  end.

(** [static_cast<char>(n)] of an [int]: the low eight bits. *)
Definition to_char (n : Z) : byte :=
  match Byte.of_N (Z.to_N (n mod 256)) with
  | Some b => b
  | None => x00
  end.

(** [ipClient.stop()] closes the socket; what was not read is gone. *)
Definition client_stop (s : State) : State :=
  mkState (keybusChanged s) (keybusConnected s) (bufferOverflow s) (written s) (polls s)
          false [] (tx s) (serial s) (newClient s).

(** [ipClient = ipServer.available()]: the global is replaced by the accepted
    connection, or by an empty client when none is pending. *)
Definition server_available (pending : bool) (s : State) : State :=
  mkState (keybusChanged s) (keybusConnected s) (bufferOverflow s) (written s) (polls s)
          pending [] (tx s) (serial s) (newClient s).

(** Bytes delivered by the network while the sketch was elsewhere. *)
Definition receive (bytes : list byte) (s : State) : State :=
  set_rx (rx s ++ bytes) s.

(** ** The sketch *)

(** The line terminator the sketch writes: carriage return, line feed. *)
Definition CRLF : string := String "013"%char (String "010"%char EmptyString).

Definition greeting : string := ("Connected to DSC Keybus Reader" ++ CRLF)%string.
Definition overflow_notice : string := "Keybus buffer overflow"%string.

(** [float timeStamp = millis() / 1000.0;]  The [unsigned long] is converted
    to [double], divided in [double], and narrowed to [float] by the
    assignment. *)
Definition timeStamp_of (millis : Z) : spec_float :=
  double_to_float (F64.div (F64.of_Z millis) (F64.of_Z 1000)).

(** The comparison [timeStamp < n] for an [int] constant [n], in [float]. *)
Definition float_lt (x : spec_float) (n : Z) : bool := SFltb x (F32.of_Z n).

(** The padding chain of [printTimestamp]. *)
Definition print_padding (timeStamp : spec_float) (s : State) : State :=
  if float_lt timeStamp 10 then client_print "    " s
  else if float_lt timeStamp 100 then client_print "   " s
  else if float_lt timeStamp 1000 then client_print "  " s
  else if float_lt timeStamp 10000 then client_print " " s
  else s.

(** The body of [printTimestamp] once [timeStamp] is known. *)
Definition printTimestamp_at (timeStamp : spec_float) (s : State) : State :=
  let s := print_padding timeStamp s in
  let s := client_emit (Num timeStamp) s in
  client_print ":" s.

(** [printTimestamp()], with the value [millis()] returns. *)
Definition printTimestamp (millis : Z) (s : State) : State :=
  printTimestamp_at (timeStamp_of millis) s.

(** What the network, the decoder and the clock answer during one pass of
    the [while (ipClient.connected())] body.  Bytes that arrive while a pass
    runs are seen by the next pass.  The decoder's accessors print
    ready-to-print strings (spec, section 6), which the model takes as
    given. *)
Record Pass : Type := mkPass {
  arrived       : list byte;  (* bytes received since the previous pass *)
  poll          : Poll;       (* dsc.loop() *)
  moduleData    : bool;       (* what dsc.handleModule() returns when called *)
  panelBinary   : string;     (* dsc.printPanelBinary() *)
  panelCommand  : string;     (* dsc.printPanelCommand() *)
  panelMessage  : string;     (* dsc.printPanelMessage() *)
  moduleBinary  : string;     (* dsc.printModuleBinary() *)
  moduleMessage : string;     (* dsc.printModuleMessage() *)
  panelMillis   : Z;          (* millis() in the panel line's printTimestamp *)
  moduleMillis  : Z           (* millis() in printModule's printTimestamp *)
}.

(** [printModule()] *)
Definition printModule (e : Pass) (s : State) : State :=
  let s := printTimestamp (moduleMillis e) s in
  let s := client_print " " s in
  let s := dsc_print (moduleBinary e) s in
  let s := client_print " " s in
  let s := dsc_print (moduleMessage e) s in
  client_print CRLF s.

(** Lines 129-133: the greeting, sent while [newClient] is set. *)
Definition greet (s : State) : State :=
  if newClient s then
    let s := Serial_println "Client connected" s in
    let s := client_print greeting s in
    set_newClient false s
  else s.

(** Lines 136-143: the telnet filter in front of the virtual keypad. *)
Definition read_input (s : State) : State :=
  if 0 <? client_available s then
    if client_peek s =? 0xFF then
      (* for (byte i = 0; i < 3; i++) ipClient.read(); *)
      let s := snd (client_read s) in
      let s := snd (client_read s) in
      snd (client_read s)
    else
      let (n, s) := client_read s in
      dsc_write (to_char n) s
  else s.

(** Lines 149-152: the overflow notice. *)
Definition report_overflow (s : State) : State :=
  if bufferOverflow s then
    let s := client_print overflow_notice s in
    set_bufferOverflow false s
  else s.

(** Lines 155-164: the panel line. *)
Definition print_panel (e : Pass) (s : State) : State :=
  if keybusConnected s then
    let s := printTimestamp (panelMillis e) s in
    let s := client_print " " s in
    let s := dsc_print (panelBinary e) s in
    let s := client_print " [" s in
    let s := dsc_print (panelCommand e) s in
    let s := client_print "] " s in
    let s := dsc_print (panelMessage e) s in
    client_print CRLF s
  else s.

(** Lines 145-171: poll the decoder and print what it has. *)
Definition process_keybus (e : Pass) (s : State) : State :=
  let (ret, s) := dsc_loop (poll e) s in
  if ret then
    let s := report_overflow s in
    let s := print_panel e s in
    if moduleData e then printModule e s else s
  else if keybusConnected s && moduleData e then printModule e s
  else s.

(** One pass of the body of [while (ipClient.connected())], lines 127-173.
    [yield()] hands the processor to the network stack, which is where the
    bytes of the next pass come from. *)
Definition pass (e : Pass) (s : State) : State :=
  let s := receive (arrived e) s in
  let s := greet s in
  let s := read_input s in
  process_keybus e s.

(** The [while] loop for as long as [ipClient.connected()] answers true:
    one environment value per pass. *)
Definition passes (es : list Pass) (s : State) : State :=
  fold_left (fun s e => pass e s) es s.

(** Lines 116-120: the Keybus connection notice. *)
Definition check_keybus (s : State) : State :=
  if keybusChanged s then
    let s := set_keybusChanged false s in
    if keybusConnected s then Serial_println "Keybus connected" s
    else Serial_println "Keybus disconnected" s
  else s.

(** Lines 176-178: the end of a session. *)
Definition end_session (s : State) : State :=
  let s := client_stop s in
  let s := set_newClient true s in
  Serial_println "Client disconnected" s.

(** What happens around one call of [loop()]: the answer of the first
    [dsc.loop()], and the connection [ipServer.available()] returns, if any,
    given by the passes its [connected()] allows before it answers false. *)
Record Call : Type := mkCall {
  firstPoll : Poll;
  client    : option (list Pass)
}.

(** [loop()] *)
Definition loop (c : Call) (s : State) : State :=
  let s := snd (dsc_loop (firstPoll c) s) in
  let s := check_keybus s in
  match client c with
  | Some es =>
      let s := server_available true s in
      let s := passes es s in
      end_session s
  | None => server_available false s
  end.

(** The Arduino runtime calls [loop()] again and again. *)
Definition run (cs : list Call) (s : State) : State :=
  fold_left (fun s c => loop c s) cs s.

(** ** Auxiliary notions for the proofs

    *** The print calls behind each line *)

(** The state after a sequence of print calls on the client stream. *)
Definition emits (items : list TxItem) (s : State) : State :=
  mkState (keybusChanged s) (keybusConnected s) (bufferOverflow s) (written s) (polls s)
          (clientOpen s) (rx s) (tx s ++ items) (serial s) (newClient s).

Definition pad_items (timeStamp : spec_float) : list TxItem :=
  if float_lt timeStamp 10 then [Lit "    "]
  else if float_lt timeStamp 100 then [Lit "   "]
  else if float_lt timeStamp 1000 then [Lit "  "]
  else if float_lt timeStamp 10000 then [Lit " "]
  else [].

Definition timestamp_items (timeStamp : spec_float) : list TxItem :=
  pad_items timeStamp ++ [Num timeStamp; Lit ":"].

Definition panel_line (e : Pass) : list TxItem :=
  timestamp_items (timeStamp_of (panelMillis e))
    ++ [Lit " "; Dsc (panelBinary e); Lit " ["; Dsc (panelCommand e); Lit "] ";
        Dsc (panelMessage e); Lit CRLF].

Definition module_line (e : Pass) : list TxItem :=
  timestamp_items (timeStamp_of (moduleMillis e))
    ++ [Lit " "; Dsc (moduleBinary e); Lit " "; Dsc (moduleMessage e); Lit CRLF].

(** Counting the sketch's own literals among the print calls. *)
Definition is_lit (text : string) (i : TxItem) : bool :=
  match i with
  | Lit s => String.eqb s text
  | _ => false
  end.

Definition count_lit (text : string) (items : list TxItem) : nat :=
  List.length (filter (is_lit text) items).

Definition count_line (line : string) (lines : list string) : nat :=
  List.length (filter (String.eqb line) lines).

(** The Keybus connection notices on [Serial], of either kind. *)
Definition keybus_lines (lines : list string) : nat :=
  (count_line "Keybus connected" lines + count_line "Keybus disconnected" lines)%nat.

(** Unfolds the primitives of the world. *)
Ltac prims :=
  unfold client_print, dsc_print, client_emit, emits, Serial_println, set_rx,
    set_keybusChanged, set_bufferOverflow, set_newClient, dsc_write, receive,
    client_stop, server_available in *.

(** *** The telnet filter *)

(** Order-preserving sublists: [subseq k l] when [k] is [l] with some
    elements left out. *)
Inductive subseq {A : Type} : list A -> list A -> Prop :=
| subseq_nil : subseq [] []
| subseq_skip (x : A) (k l : list A) : subseq k l -> subseq k (x :: l)
| subseq_take (x : A) (k l : list A) : subseq k l -> subseq (x :: k) (x :: l).

(** One look of the filter at the available bytes: what is forwarded and
    what stays in the socket. *)
Definition filter_step (avail : list byte) : list byte * list byte :=
  match avail with
  | [] => ([], [])
  | b :: rest => if Byte.eqb b xff then ([], skipn 2 rest) else ([b], rest)
  end.

(** The filter in the spec's words, over a whole byte sequence: an IAC takes
    the two bytes after it with it and nothing of the three is passed on; any
    other byte is passed on. *)
Fixpoint telnet_filter (bytes : list byte) : list byte :=
  match bytes with
  | [] => []
  | b :: rest =>
      if Byte.eqb b xff then
        match rest with
        | _ :: _ :: rest' => telnet_filter rest'
        | _ => []
        end
      else b :: telnet_filter rest
  end.

Definition no_arrival (e : Pass) : Prop := arrived e = [].

(** *** One pass in closed form *)

Definition greet_items (s : State) : list TxItem :=
  if newClient s then [Lit greeting] else [].

Definition greet_lines (s : State) : list string :=
  if newClient s then ["Client connected"%string] else [].

(** The overflow flag as the overflow block finds it in this pass. *)
Definition overflow_seen (e : Pass) (s : State) : bool :=
  bufferOverflow s || p_overflow (poll e).

(** The condition under which [printModule] runs in this pass. *)
Definition module_due (e : Pass) : bool :=
  moduleData e && (p_ret (poll e) || p_connected (poll e)).

(** What a pass prints before it comes to the module data. *)
Definition panel_items (e : Pass) (s : State) : list TxItem :=
  if p_ret (poll e)
  then (if overflow_seen e s then [Lit overflow_notice] else [])
         ++ (if p_connected (poll e) then panel_line e else [])
  else [].

(** What a pass prints after the greeting. *)
Definition keybus_items (e : Pass) (s : State) : list TxItem :=
  panel_items e s ++ (if module_due e then module_line e else []).

(** *** Sessions and calls in closed form *)

(** Everything a session prints on the client stream, pass by pass. *)
Fixpoint session_items (es : list Pass) (s : State) : list TxItem :=
  match es with
  | [] => []
  | e :: es' => greet_items s ++ keybus_items e s ++ session_items es' (pass e s)
  end.

Definition changed_in (es : list Pass) : bool :=
  existsb (fun e => p_changed (poll e)) es.

(** The notice [check_keybus] prints, if any. *)
Definition keybus_notice (s : State) : list string :=
  if keybusChanged s
  then [if keybusConnected s then "Keybus connected" else "Keybus disconnected"]%string
  else [].

(** The state in which the session of a call starts, if it has one. *)
Definition session_start (c : Call) (s : State) : State :=
  server_available true (check_keybus (snd (dsc_loop (firstPoll c) s))).

Definition session_changed (c : Call) : bool :=
  match client c with
  | Some es => changed_in es
  | None => false
  end.

(** No poll of the call reports a connection-state transition. *)
Definition call_quiet (c : Call) : Prop :=
  p_changed (firstPoll c) = false /\ session_changed c = false.

(** *** Example environments *)

(** A poll that finds nothing new, and a pass in which only bytes arrive. *)
Definition idle_poll : Poll := mkPoll false false false false.
Definition idle_pass (bytes : list byte) : Pass :=
  mkPass bytes idle_poll false "" "" "" "" "" 0 0.

(** *** Overflow notices *)

Definition overflow_count (items : list TxItem) : nat := count_lit overflow_notice items.

(** 1 while an overflow is flagged and not yet reported. *)
Definition pending (s : State) : nat := if bufferOverflow s then 1%nat else 0%nat.

(** An occurrence of the flag being set: a poll that raises it while it is
    not set. *)
Definition overflow_set (p : Poll) (s : State) : nat :=
  if negb (bufferOverflow s) && p_overflow p then 1%nat else 0%nat.

(** The occurrences over a session, a call of [loop()] and a run. *)
Fixpoint overflows_of_passes (es : list Pass) (s : State) : nat :=
  match es with
  | [] => 0%nat
  | e :: es' => (overflow_set (poll e) s + overflows_of_passes es' (pass e s))%nat
  end.

Definition overflows_of_call (c : Call) (s : State) : nat :=
  (overflow_set (firstPoll c) s
   + match client c with
     | Some es => overflows_of_passes es (session_start c s)
     | None => 0
     end)%nat.

Fixpoint overflows (cs : list Call) (s : State) : nat :=
  match cs with
  | [] => 0%nat
  | c :: cs' => (overflows_of_call c s + overflows cs' (loop c s))%nat
  end.

(** *** Line termination *)

(** [ends_with suffix text]: the text ends in the suffix. *)
Fixpoint ends_with (suffix text : string) : bool :=
  String.eqb text suffix
  || match text with
     | EmptyString => false
     | String _ text' => ends_with suffix text'
     end.

(** A session in which the decoder reports an overflow while the Keybus is
    not connected, and one in which it reports it together with panel data. *)
Definition overflow_pass : Pass :=
  mkPass [] (mkPoll true false false true) false "" "" "" "" "" 0 0.
Definition overflow_panel_pass : Pass :=
  mkPass [] (mkPoll true false true true) false
         "00000101 0 10000001" "0x05" "Partition 1: Ready" "" "" 7000 0.

(** *** The timestamp *)

(** A finite binary32 value in units of 2^-149, the smallest positive one. *)
Definition float_units (x : spec_float) : Z :=
  match x with
  | S754_finite s m e => (if s then Z.neg m else Z.pos m) * 2 ^ (e + 149)
  | _ => 0
  end.

(** The mantissa of 1000.0 as a [double]: 1000 * 2^43. *)
Definition my1000 : Z := 8796093022208000.

Definition is_finite (x : spec_float) : bool :=
  match x with
  | S754_finite _ _ _ | S754_zero _ => true
  | _ => false
  end.

(** The width of the padding in the spec's words. *)
Definition padding_width (t : Q) : nat :=
  if Qlt_le_dec t 10 then 4
  else if Qlt_le_dec t 100 then 3
  else if Qlt_le_dec t 1000 then 2
  else if Qlt_le_dec t 10000 then 1
  else 0.

Fixpoint spaces (n : nat) : string :=
  match n with
  | O => EmptyString
  | S n' => String " " (spaces n')
  end.

(** The padding as a print call: none at all for width 0. *)
Definition padding (n : nat) : list TxItem :=
  match n with
  | O => []
  | _ => [Lit (spaces n)]
  end.

(** ** Further notions

    *** Telnet input and sessions *)

(** The number of IAC bytes in a byte sequence. *)
Definition xffs (bytes : list byte) : nat :=
  List.length (filter (Byte.eqb xff) bytes).

(** Everything the client sends during a session, in order. *)
Definition arrivals (es : list Pass) : list byte := List.concat (map arrived es).

(** The calls of a run that accept a client, and those whose session runs
    at least one pass. *)
Definition has_client (c : Call) : bool :=
  match client c with Some _ => true | None => false end.
Definition has_pass (c : Call) : bool :=
  match client c with Some (_ :: _) => true | _ => false end.
Definition sessions (cs : list Call) : nat := List.length (filter has_client cs).
Definition live_sessions (cs : list Call) : nat := List.length (filter has_pass cs).

(** The passes of all the sessions of a run. *)
Definition passes_of (c : Call) : nat :=
  match client c with Some es => List.length es | None => 0%nat end.
Definition total_passes (cs : list Call) : nat := list_sum (map passes_of cs).

(** A run of well-formed negotiation sequences: IAC, command, option. *)
Definition negotiation (options : list (byte * byte)) : list byte :=
  List.concat (map (fun o => [xff; fst o; snd o]) options).

(** ** setup()

    What [setup()] leaves behind: the characters written to [Serial], the
    time spent in [delay], which services were started, and the decoder's
    settings. *)
Record Board : Type := mkBoard {
  console             : string;  (* characters written to Serial *)
  waited              : Z;       (* milliseconds spent in delay() *)
  serverBegun         : bool;    (* ipServer.begin() was called *)
  hideKeypadDigits    : bool;    (* dsc.hideKeypadDigits *)
  processModuleData   : bool;    (* dsc.processModuleData *)
  displayTrailingBits : bool;    (* dsc.displayTrailingBits *)
  dscBegun            : bool     (* dsc.begin(ipClient) was called *)
}.

(** The board at reset; the decoder's settings have the defaults the
    sketch's comments give. *)
Definition reset : Board := mkBoard "" 0 false false false false false.

(** What the network answers during [setup()]: whether each successive
    [WiFi.status()] is [WL_CONNECTED], the address [WiFi.localIP()] prints
    as, and what [MDNS.begin] returns. *)
Record Network : Type := mkNetwork {
  statuses : list bool;
  localIP  : string;
  mdns     : bool
}.

Definition dnsHostname : string := "dsc".
Definition serverPort : Z := 23.

Definition board_print (text : string) (b : Board) : Board :=
  mkBoard (console b ++ text) (waited b) (serverBegun b) (hideKeypadDigits b)
          (processModuleData b) (displayTrailingBits b) (dscBegun b).

Definition board_println (text : string) (b : Board) : Board :=
  board_print CRLF (board_print text b).

Definition delay (ms : Z) (b : Board) : Board :=
  mkBoard (console b) (waited b + ms) (serverBegun b) (hideKeypadDigits b)
          (processModuleData b) (displayTrailingBits b) (dscBegun b).

Definition ipServer_begin (b : Board) : Board :=
  mkBoard (console b) (waited b) true (hideKeypadDigits b)
          (processModuleData b) (displayTrailingBits b) (dscBegun b).

(** Lines 100-102 and 106: the decoder's settings, then [dsc.begin]. *)
Definition configure_dsc (b : Board) : Board :=
  mkBoard (console b) (waited b) (serverBegun b) false true false true.

(** Lines 79-82: [while (WiFi.status() != WL_CONNECTED)].  The result says
    whether the loop was left; it is not when the answers run out first. *)
Fixpoint wifi_wait (answers : list bool) (b : Board) : bool * Board :=
  match answers with
  | [] => (false, b)
  | true :: _ => (true, b)
  | false :: rest => wifi_wait rest (delay 500 (board_print "." b))
  end.

(** How [setup()] ends: it returns, it is caught in [while (1)] after the
    mDNS error, or it is still waiting for the WiFi. *)
Inductive Outcome : Type :=
| Online (b : Board)
| Halted (b : Board)
| Waiting (b : Board).

(** [setup()] *)
Definition setup (net : Network) : Outcome :=
  let b := delay 1000 reset in
  let b := board_println "" b in
  let b := board_println "" b in
  let b := board_print "WiFi" b in
  let (connected, b) := wifi_wait (statuses net) b in
  if connected then
    let b := board_print "connected: " b in
    let b := board_println (localIP net) b in
    if negb (mdns net) then
      Halted (board_println "Error setting up MDNS responder." b)
    else
      let b := ipServer_begin b in
      let b := board_print "Server started: " b in
      let b := board_print dnsHostname b in
      let b := board_print ".local:" b in
      let b := board_println (print_uint serverPort) b in
      let b := configure_dsc b in
      Online (board_println "DSC Keybus Interface is online." b)
  else Waiting b.

Fixpoint dots (n : nat) : string :=
  match n with
  | O => EmptyString
  | S n' => String "." (dots n')
  end.

(** The failed status checks before the first successful one. *)
Fixpoint failures (answers : list bool) : nat :=
  match answers with
  | false :: rest => S (failures rest)
  | _ => O
  end.

(** * Proofs *)

(** ** The primitives and the print helpers *)

Lemma state_eta (s : State) :
  mkState (keybusChanged s) (keybusConnected s) (bufferOverflow s) (written s) (polls s)
          (clientOpen s) (rx s) (tx s) (serial s) (newClient s) = s.
Proof. destruct s; reflexivity. Qed.

Lemma emits_nil (s : State) : emits [] s = s.
Proof. unfold emits. rewrite app_nil_r. apply state_eta. Qed.

Lemma emits_emits (a b : list TxItem) (s : State) :
  emits b (emits a s) = emits (a ++ b) s.
Proof. unfold emits; simpl. now rewrite app_assoc. Qed.

Lemma client_emit_emits (i : TxItem) (s : State) : client_emit i s = emits [i] s.
Proof. reflexivity. Qed.

Lemma print_padding_emits (t : spec_float) (s : State) :
  print_padding t s = emits (pad_items t) s.
Proof.
  unfold print_padding, pad_items.
  repeat match goal with |- context [float_lt ?x ?n] => destruct (float_lt x n) end;
    try reflexivity.
  symmetry; apply emits_nil.
Qed.

Lemma printTimestamp_at_emits (t : spec_float) (s : State) :
  printTimestamp_at t s = emits (timestamp_items t) s.
Proof.
  unfold printTimestamp_at, timestamp_items, client_print.
  rewrite print_padding_emits, !client_emit_emits, !emits_emits.
  now rewrite <- ?app_assoc.
Qed.

Lemma printModule_emits (e : Pass) (s : State) :
  printModule e s = emits (module_line e) s.
Proof.
  unfold printModule, module_line, printTimestamp, client_print, dsc_print.
  rewrite printTimestamp_at_emits, !client_emit_emits, !emits_emits.
  now rewrite <- ?app_assoc.
Qed.

Lemma print_panel_emits (e : Pass) (s : State) :
  print_panel e s = emits (if keybusConnected s then panel_line e else []) s.
Proof.
  unfold print_panel, panel_line, printTimestamp, client_print, dsc_print.
  destruct (keybusConnected s).
  - rewrite printTimestamp_at_emits, !client_emit_emits, !emits_emits.
    now rewrite <- ?app_assoc.
  - symmetry; apply emits_nil.
Qed.

(** ** One pass in closed form *)

Lemma to_char_byte (b : byte) : to_char (byte_to_int b) = b.
Proof. destruct b; reflexivity. Qed.

Lemma peek_IAC (b : byte) : (byte_to_int b =? 0xFF) = Byte.eqb b xff.
Proof. destruct b; reflexivity. Qed.

Lemma eqb_xff (b : byte) : Byte.eqb b xff = true <-> b = xff.
Proof.
  split; [apply Byte.byte_dec_bl | apply Byte.byte_dec_lb].
Qed.

(** [read_input] in terms of [filter_step]. *)
Lemma read_input_step (s : State) :
  read_input s =
  mkState (keybusChanged s) (keybusConnected s) (bufferOverflow s)
          (written s ++ fst (filter_step (rx s))) (polls s)
          (clientOpen s) (snd (filter_step (rx s))) (tx s) (serial s) (newClient s).
Proof.
  unfold read_input, client_available, client_peek, filter_step.
  destruct s as [kc kn bo w p co r t se nc]; simpl.
  destruct r as [|b rest]; simpl.
  - now rewrite app_nil_r.
  - rewrite peek_IAC. destruct (Byte.eqb b xff).
    + unfold client_read; simpl. rewrite app_nil_r.
      destruct rest as [|b1 [|b2 rest]]; reflexivity.
    + unfold client_read, dsc_write; simpl. now rewrite to_char_byte.
Qed.

Lemma greet_spec (s : State) :
  greet s =
  mkState (keybusChanged s) (keybusConnected s) (bufferOverflow s) (written s) (polls s)
          (clientOpen s) (rx s) (tx s ++ greet_items s) (serial s ++ greet_lines s) false.
Proof.
  unfold greet, greet_items, greet_lines.
  destruct s as [kc kn bo w p co r t se nc]; simpl.
  destruct nc; prims; simpl; [reflexivity|].
  now rewrite !app_nil_r.
Qed.

Lemma process_keybus_spec (e : Pass) (s : State) :
  process_keybus e s =
  mkState (keybusChanged s || p_changed (poll e)) (p_connected (poll e))
          (if p_ret (poll e) then false else overflow_seen e s)
          (written s) (S (polls s)) (clientOpen s) (rx s)
          (tx s ++ keybus_items e s) (serial s) (newClient s).
Proof.
  unfold process_keybus, keybus_items, panel_items, module_due, overflow_seen, dsc_loop,
    report_overflow.
  destruct s as [kc kn bo w p co r t se nc].
  destruct (poll e) as [ret ch conn ov]; simpl.
  destruct ret; simpl.
  - destruct (bo || ov); simpl;
      rewrite print_panel_emits; simpl;
      destruct (moduleData e); simpl; rewrite ?printModule_emits;
      unfold emits, client_print, client_emit, set_bufferOverflow; simpl;
      rewrite <- ?app_assoc, ?app_nil_r; reflexivity.
  - rewrite andb_comm. destruct (moduleData e); simpl.
    + destruct conn; simpl; rewrite ?printModule_emits; unfold emits; simpl;
        rewrite ?app_nil_r; reflexivity.
    + now rewrite app_nil_r.
Qed.

Lemma pass_spec (e : Pass) (s : State) :
  pass e s =
  mkState (keybusChanged s || p_changed (poll e)) (p_connected (poll e))
          (if p_ret (poll e) then false else overflow_seen e s)
          (written s ++ fst (filter_step (rx s ++ arrived e)))
          (S (polls s)) (clientOpen s)
          (snd (filter_step (rx s ++ arrived e)))
          (tx s ++ greet_items s ++ keybus_items e s)
          (serial s ++ greet_lines s) false.
Proof.
  unfold pass.
  rewrite process_keybus_spec, read_input_step, greet_spec.
  unfold receive, set_rx, keybus_items, panel_items, overflow_seen, greet_items, greet_lines; simpl.
  now rewrite <- app_assoc.
Qed.

(** What one pass does to the socket and to the decoder's keys. *)
Lemma pass_written (e : Pass) (s : State) :
  written (pass e s) = written s ++ fst (filter_step (rx s ++ arrived e)).
Proof. now rewrite pass_spec. Qed.

Lemma pass_rx (e : Pass) (s : State) :
  rx (pass e s) = snd (filter_step (rx s ++ arrived e)).
Proof. now rewrite pass_spec. Qed.

Lemma passes_cons (e : Pass) (es : list Pass) (s : State) :
  passes (e :: es) s = passes es (pass e s).
Proof. reflexivity. Qed.

(** ** The telnet filter over a session *)

Lemma subseq_refl {A : Type} (l : list A) : subseq l l.
Proof. induction l; constructor; assumption. Qed.

Lemma subseq_trans {A : Type} (a b c : list A) :
  subseq a b -> subseq b c -> subseq a c.
Proof.
  intros Hab Hbc; revert a Hab.
  induction Hbc as [|x k l Hkl IH|x k l Hkl IH]; intros a Hab.
  - assumption.
  - constructor; auto.
  - inversion Hab; subst.
    + apply subseq_skip; auto.
    + apply subseq_take; auto.
Qed.

Lemma subseq_app {A : Type} (a a' b b' : list A) :
  subseq a a' -> subseq b b' -> subseq (a ++ b) (a' ++ b').
Proof.
  intros Ha Hb; induction Ha; simpl.
  - assumption.
  - apply subseq_skip; assumption.
  - apply subseq_take; assumption.
Qed.

Lemma subseq_skipn {A : Type} (n : nat) (l : list A) : subseq (skipn n l) l.
Proof.
  revert l; induction n as [|n IH]; intros [|x l]; simpl;
    try apply subseq_refl.
  apply subseq_skip, IH.
Qed.

Lemma filter_step_subseq (avail : list byte) :
  subseq (fst (filter_step avail) ++ snd (filter_step avail)) avail.
Proof.
  destruct avail as [|b rest]; [apply subseq_nil|].
  unfold filter_step. destruct (Byte.eqb b xff).
  - apply subseq_skip, (subseq_skipn 2).
  - apply subseq_refl.
Qed.

(** The keys the decoder gets are the received bytes with some left out,
    never reordered. *)
Lemma passes_order (es : list Pass) (s : State) :
  exists keys,
    written (passes es s) = written s ++ keys /\
    subseq (keys ++ rx (passes es s)) (rx s ++ List.concat (map arrived es)).
Proof.
  revert s; induction es as [|e es IH]; intro s.
  - exists []; simpl. rewrite !app_nil_r. split; [reflexivity | apply subseq_refl].
  - rewrite passes_cons. destruct (IH (pass e s)) as (keys & Hw & Hs).
    exists (fst (filter_step (rx s ++ arrived e)) ++ keys). split.
    + now rewrite Hw, pass_written, app_assoc.
    + simpl. rewrite pass_rx in Hs. rewrite <- app_assoc, (app_assoc (rx s)).
      eapply subseq_trans.
      * apply subseq_app; [apply subseq_refl | exact Hs].
      * rewrite app_assoc. apply subseq_app;
          [apply filter_step_subseq | apply subseq_refl].
Qed.

Lemma filter_step_length (avail : list byte) :
  (List.length (snd (filter_step avail)) <= pred (List.length avail))%nat.
Proof.
  destruct avail as [|b rest]; [simpl; lia|].
  unfold filter_step. destruct (Byte.eqb b xff); [|simpl; lia].
  cbn [snd List.length pred]. rewrite length_skipn. lia.
Qed.

Lemma telnet_filter_step (avail : list byte) :
  telnet_filter avail =
  fst (filter_step avail) ++ telnet_filter (snd (filter_step avail)).
Proof.
  destruct avail as [|b rest]; simpl; [reflexivity|].
  destruct (Byte.eqb b xff); simpl; [|reflexivity].
  destruct rest as [|b1 [|b2 rest]]; reflexivity.
Qed.

(** With everything already in the socket and one pass per byte at least,
    the decoder gets exactly what the spec's filter lets through. *)
Lemma passes_drain (es : list Pass) (s : State) :
  Forall no_arrival es ->
  (List.length (rx s) <= List.length es)%nat ->
  written (passes es s) = written s ++ telnet_filter (rx s) /\
  rx (passes es s) = [].
Proof.
  revert s; induction es as [|e es IH]; intros s Hq Hlen.
  - simpl in *. destruct (rx s); [|simpl in Hlen; lia].
    simpl. now rewrite app_nil_r.
  - inversion Hq as [|? ? He Hes]; subst. rewrite passes_cons.
    assert (Hrx : rx s ++ arrived e = rx s) by (rewrite He; apply app_nil_r).
    destruct (IH (pass e s) Hes) as [Hw Hr].
    + rewrite pass_rx, Hrx. pose proof (filter_step_length (rx s)).
      simpl in Hlen. lia.
    + split; [|exact Hr].
      rewrite Hw, pass_written, pass_rx, Hrx, <- app_assoc.
      now rewrite <- telnet_filter_step.
Qed.

(** ** C1 and C2: the telnet filter *)

(** C1, as the spec states it, fails: with only the IAC in the socket the
    three [read()] calls consume one byte, not three, and the two bytes that
    follow it later are handed to the decoder. *)
Lemma C1_counterexample :
  client_peek (receive [xff] initial) = 0xFF /\
  rx (read_input (receive [xff; xfb] initial)) = [] /\
  (List.length (rx (receive [xff] initial))
     - List.length (rx (read_input (receive [xff] initial))) = 1)%nat /\
  written (passes [idle_pass [xff]; idle_pass [xfb; x31]; idle_pass []] initial)
    = [xfb; x31].
Proof. repeat split. Qed.

(** C1 (amended): when the next available byte is the IAC 0xFF, the IAC and
    the next two bytes are consumed as far as they are already available
    (three bytes when at least three are there, otherwise all of them) and
    none of them is forwarded; a byte other than 0xFF whose turn comes up is
    consumed alone and forwarded unchanged; over any session the keys the
    decoder has received are, in order, a sublist of the bytes received; and
    when the whole sequence is in the socket from the start, the decoder
    receives exactly what the fixed three-byte rule lets through. *)
Theorem C1_telnet_filter (s : State) :
  (forall rest : list byte,
      let s' := read_input (set_rx (xff :: rest) s) in
      rx s' = skipn 2 rest /\
      written s' = written s /\
      (List.length (rx s') + Nat.min 3 (List.length (xff :: rest))
       = List.length (xff :: rest))%nat) /\
  (forall (b : byte) (rest : list byte),
      b <> xff ->
      let s' := read_input (set_rx (b :: rest) s) in
      rx s' = rest /\ written s' = written s ++ [b]) /\
  (forall es : list Pass,
      exists keys : list byte,
        written (passes es s) = written s ++ keys /\
        subseq (keys ++ rx (passes es s)) (rx s ++ List.concat (map arrived es))) /\
  (forall es : list Pass,
      Forall no_arrival es ->
      (List.length (rx s) <= List.length es)%nat ->
      written (passes es s) = written s ++ telnet_filter (rx s) /\
      rx (passes es s) = []).
Proof.
  split; [|split; [|split]].
  - intros rest s'; subst s'. rewrite read_input_step; simpl.
    rewrite app_nil_r. repeat split.
    destruct rest as [|b1 [|b2 rest]]; simpl; lia.
  - intros b rest Hb s'; subst s'. rewrite read_input_step; simpl.
    destruct (Byte.eqb b xff) eqn:E; [apply eqb_xff in E; contradiction|].
    split; reflexivity.
  - intro es; apply passes_order.
  - intro es; apply passes_drain.
Qed.

Lemma C1_telnet_filter_witness :
  rx (read_input (set_rx ["1"%byte; "2"%byte] initial)) = ["2"%byte] /\
  written (read_input (set_rx ["1"%byte; "2"%byte] initial)) = ["1"%byte].
Proof.
  destruct (C1_telnet_filter initial) as (_ & H & _ & _).
  apply (H "1"%byte ["2"%byte]). discriminate.
Defined.

(** C2, as the spec states it, fails: the four bytes arriving together make
    the decoder receive the single key '2'; the '1' goes with the IAC. *)
Lemma C2_counterexample :
  written (loop (mkCall idle_poll
                   (Some [idle_pass [xff; xfb; x31; x32]; idle_pass []; idle_pass []]))
                initial)
  <> ["1"%byte; "2"%byte].
Proof. discriminate. Qed.

(** C2 (amended): if the client sends exactly [0xFF, 0xFB, 0x31, 0x32] and
    the four bytes are in the socket together, the decoder's write interface
    receives exactly the keystroke '2' and nothing else: 0x31 is discarded as
    the third byte of the negotiation triplet. *)
Theorem C2_negotiation_scenario (s : State) (e : Pass) (es : list Pass) :
  rx s = [] ->
  arrived e = [xff; xfb; x31; x32] ->
  Forall no_arrival es ->
  es <> [] ->
  written (passes (e :: es) s) = written s ++ ["2"%byte] /\
  rx (passes (e :: es) s) = [].
Proof.
  intros Hrx He Hes Hne. rewrite passes_cons.
  destruct (passes_drain es (pass e s) Hes) as [Hw Hr].
  - rewrite pass_rx, Hrx, He; simpl. destruct es; [contradiction | simpl; lia].
  - split; [|exact Hr].
    rewrite Hw, pass_written, pass_rx, Hrx, He; simpl. now rewrite app_nil_r.
Qed.

Lemma C2_negotiation_scenario_witness :
  written (passes [idle_pass [xff; xfb; x31; x32]; idle_pass []] initial) = ["2"%byte] /\
  rx (passes [idle_pass [xff; xfb; x31; x32]; idle_pass []] initial) = [].
Proof.
  apply (C2_negotiation_scenario initial (idle_pass [xff; xfb; x31; x32]) [idle_pass []]).
  - reflexivity.
  - reflexivity.
  - repeat constructor.
  - discriminate.
Defined.

(** ** Sessions and calls in closed form *)

Lemma count_lit_app (text : string) (a b : list TxItem) :
  count_lit text (a ++ b) = (count_lit text a + count_lit text b)%nat.
Proof. unfold count_lit. now rewrite filter_app, length_app. Qed.

Lemma count_line_app (line : string) (a b : list string) :
  count_line line (a ++ b) = (count_line line a + count_line line b)%nat.
Proof. unfold count_line. now rewrite filter_app, length_app. Qed.

Lemma keybus_lines_app (a b : list string) :
  keybus_lines (a ++ b) = (keybus_lines a + keybus_lines b)%nat.
Proof. unfold keybus_lines. rewrite !count_line_app. lia. Qed.

Lemma passes_tx (es : list Pass) (s : State) :
  tx (passes es s) = tx s ++ session_items es s.
Proof.
  revert s; induction es as [|e es IH]; intro s; simpl.
  - now rewrite app_nil_r.
  - change (fold_left (fun s e => pass e s) es (pass e s)) with (passes es (pass e s)).
    rewrite IH, pass_spec; simpl. now rewrite <- !app_assoc.
Qed.

Lemma passes_keybusChanged (es : list Pass) (s : State) :
  keybusChanged (passes es s) = keybusChanged s || changed_in es.
Proof.
  revert s; induction es as [|e es IH]; intro s; simpl.
  - now rewrite orb_false_r.
  - change (fold_left (fun s e => pass e s) es (pass e s)) with (passes es (pass e s)).
    rewrite IH, pass_spec; simpl. now rewrite orb_assoc.
Qed.

Lemma passes_polls (es : list Pass) (s : State) :
  polls (passes es s) = (polls s + List.length es)%nat.
Proof.
  revert s; induction es as [|e es IH]; intro s; simpl.
  - lia.
  - change (fold_left (fun s e => pass e s) es (pass e s)) with (passes es (pass e s)).
    rewrite IH, pass_spec; simpl. lia.
Qed.

Lemma passes_keybus_lines (es : list Pass) (s : State) :
  keybus_lines (serial (passes es s)) = keybus_lines (serial s).
Proof.
  revert s; induction es as [|e es IH]; intro s; simpl.
  - reflexivity.
  - change (fold_left (fun s e => pass e s) es (pass e s)) with (passes es (pass e s)).
    rewrite IH, pass_spec; simpl. rewrite keybus_lines_app.
    unfold greet_lines; destruct (newClient s).
    + change (keybus_lines ["Client connected"%string]) with 0%nat. lia.
    + change (keybus_lines []) with 0%nat. lia.
Qed.

Lemma passes_keybusConnected_lines (line : string) (es : list Pass) (s : State) :
  String.eqb line "Client connected" = false ->
  count_line line (serial (passes es s)) = count_line line (serial s).
Proof.
  intro Hl. revert s; induction es as [|e es IH]; intro s; simpl.
  - reflexivity.
  - change (fold_left (fun s e => pass e s) es (pass e s)) with (passes es (pass e s)).
    rewrite IH, pass_spec; simpl. rewrite count_line_app.
    unfold greet_lines; destruct (newClient s); unfold count_line at 2;
      cbn [filter]; rewrite ?Hl; simpl; lia.
Qed.

Lemma check_keybus_spec (s : State) :
  check_keybus s =
  mkState false (keybusConnected s) (bufferOverflow s) (written s) (polls s)
          (clientOpen s) (rx s) (tx s) (serial s ++ keybus_notice s) (newClient s).
Proof.
  unfold check_keybus, keybus_notice.
  destruct s as [kc kn bo w p co r t se nc]; simpl.
  destruct kc; [destruct kn; reflexivity|].
  now rewrite app_nil_r.
Qed.

Lemma loop_session (c : Call) (es : list Pass) (s : State) :
  client c = Some es ->
  loop c s = end_session (passes es (session_start c s)).
Proof. intro H. unfold loop, session_start. now rewrite H. Qed.

Lemma loop_keybusChanged (c : Call) (s : State) :
  keybusChanged (loop c s) = session_changed c.
Proof.
  unfold loop, session_changed. rewrite check_keybus_spec.
  destruct (client c) as [es|]; simpl; [|reflexivity].
  now rewrite passes_keybusChanged.
Qed.

Lemma loop_polls (c : Call) (s : State) :
  polls (loop c s)
  = (S (polls s) + match client c with Some es => List.length es | None => 0 end)%nat.
Proof.
  unfold loop. rewrite check_keybus_spec.
  destruct (client c) as [es|]; simpl; [|lia].
  now rewrite passes_polls.
Qed.

Lemma loop_keybus_lines (c : Call) (s : State) :
  keybus_lines (serial (loop c s))
  = (keybus_lines (serial s)
     + if keybusChanged s || p_changed (firstPoll c) then 1 else 0)%nat.
Proof.
  unfold loop. rewrite check_keybus_spec.
  destruct (client c) as [es|]; simpl.
  - rewrite keybus_lines_app, passes_keybus_lines; simpl.
    rewrite keybus_lines_app. unfold keybus_notice; simpl.
    change (keybus_lines ["Client disconnected"%string]) with 0%nat.
    destruct (keybusChanged s || p_changed (firstPoll c));
      [destruct (p_connected (firstPoll c))|]; cbn; lia.
  - rewrite keybus_lines_app. unfold keybus_notice; simpl.
    destruct (keybusChanged s || p_changed (firstPoll c));
      [destruct (p_connected (firstPoll c))|]; cbn; lia.
Qed.

Lemma loop_connected_lines (c : Call) (s : State) :
  count_line "Keybus connected" (serial (loop c s))
  = (count_line "Keybus connected" (serial s)
     + if (keybusChanged s || p_changed (firstPoll c)) && p_connected (firstPoll c)
       then 1 else 0)%nat.
Proof.
  unfold loop. rewrite check_keybus_spec.
  destruct (client c) as [es|]; simpl.
  - rewrite count_line_app, passes_keybusConnected_lines by reflexivity; simpl.
    rewrite count_line_app. unfold keybus_notice; simpl.
    change (count_line "Keybus connected" ["Client disconnected"%string]) with 0%nat.
    destruct (keybusChanged s || p_changed (firstPoll c));
      [destruct (p_connected (firstPoll c))|]; cbn; lia.
  - rewrite count_line_app. unfold keybus_notice; simpl.
    destruct (keybusChanged s || p_changed (firstPoll c));
      [destruct (p_connected (firstPoll c))|]; cbn; lia.
Qed.

Lemma loop_newClient (c : Call) (s : State) :
  newClient (loop c s) = match client c with Some _ => true | None => newClient s end.
Proof.
  unfold loop. rewrite check_keybus_spec. destruct (client c); reflexivity.
Qed.

Lemma loop_clientOpen (c : Call) (s : State) : clientOpen (loop c s) = false.
Proof.
  unfold loop. rewrite check_keybus_spec. destruct (client c); reflexivity.
Qed.

Lemma loop_tx (c : Call) (s : State) :
  tx (loop c s)
  = tx s ++ match client c with
            | Some es => session_items es (session_start c s)
            | None => []
            end.
Proof.
  unfold loop, session_start. rewrite check_keybus_spec.
  destruct (client c) as [es|]; simpl.
  - now rewrite passes_tx.
  - now rewrite app_nil_r.
Qed.

Lemma run_cons (c : Call) (cs : list Call) (s : State) :
  run (c :: cs) s = run cs (loop c s).
Proof. reflexivity. Qed.

Lemma run_quiet (cs : list Call) (s : State) :
  keybusChanged s = false ->
  Forall call_quiet cs ->
  keybus_lines (serial (run cs s)) = keybus_lines (serial s) /\
  keybusChanged (run cs s) = false.
Proof.
  revert s; induction cs as [|c cs IH]; intros s Hs Hq.
  - split; [reflexivity | exact Hs].
  - inversion Hq as [|? ? [Hp Hc] Hcs]; subst. rewrite run_cons.
    destruct (IH (loop c s)) as [Hl Hk]; [|assumption|].
    + now rewrite loop_keybusChanged.
    + split; [|exact Hk]. rewrite Hl, loop_keybus_lines, Hs, Hp; simpl. lia.
Qed.

Lemma run_newClient (cs : list Call) (s : State) :
  newClient s = true -> newClient (run cs s) = true.
Proof.
  revert s; induction cs as [|c cs IH]; intros s H; [exact H|].
  rewrite run_cons. apply IH. rewrite loop_newClient, H. now destruct (client c).
Qed.

(** ** C3: the overflow notice *)

Lemma timestamp_items_lit (text : string) (t : spec_float) :
  is_lit text (Lit "    ") = false -> is_lit text (Lit "   ") = false ->
  is_lit text (Lit "  ") = false -> is_lit text (Lit " ") = false ->
  is_lit text (Lit ":") = false ->
  count_lit text (timestamp_items t) = 0%nat.
Proof.
  intros H4 H3 H2 H1 Hc. unfold timestamp_items, pad_items, count_lit.
  repeat match goal with |- context [float_lt ?x ?n] => destruct (float_lt x n) end;
    cbn [app filter]; rewrite ?H4, ?H3, ?H2, ?H1, ?Hc; reflexivity.
Qed.

Lemma panel_line_overflow (e : Pass) : overflow_count (panel_line e) = 0%nat.
Proof.
  unfold overflow_count, panel_line. rewrite count_lit_app.
  rewrite timestamp_items_lit by reflexivity. reflexivity.
Qed.

Lemma module_line_overflow (e : Pass) : overflow_count (module_line e) = 0%nat.
Proof.
  unfold overflow_count, module_line. rewrite count_lit_app.
  rewrite timestamp_items_lit by reflexivity. reflexivity.
Qed.

Lemma keybus_items_overflow (e : Pass) (s : State) :
  overflow_count (keybus_items e s)
  = if p_ret (poll e) && overflow_seen e s then 1%nat else 0%nat.
Proof.
  unfold keybus_items, panel_items, overflow_count. rewrite count_lit_app.
  fold (overflow_count (if module_due e then module_line e else [])).
  replace (overflow_count (if module_due e then module_line e else [])) with 0%nat
    by (destruct (module_due e); [now rewrite module_line_overflow | reflexivity]).
  destruct (p_ret (poll e)); [|reflexivity].
  rewrite count_lit_app.
  fold (overflow_count (if p_connected (poll e) then panel_line e else [])).
  replace (overflow_count (if p_connected (poll e) then panel_line e else [])) with 0%nat
    by (destruct (p_connected (poll e)); [now rewrite panel_line_overflow | reflexivity]).
  destruct (overflow_seen e s); reflexivity.
Qed.

Lemma greet_items_overflow (s : State) : overflow_count (greet_items s) = 0%nat.
Proof. unfold greet_items; destruct (newClient s); reflexivity. Qed.

(** Notices printed plus the overflow still flagged: a pass turns a flagged
    overflow into a notice or leaves it flagged, and adds what its poll raised. *)
Lemma pass_overflow_balance (e : Pass) (s : State) :
  (overflow_count (tx (pass e s)) + pending (pass e s)
   = overflow_count (tx s) + (if overflow_seen e s then 1 else 0))%nat.
Proof.
  rewrite pass_spec; unfold pending, overflow_count; simpl.
  rewrite !count_lit_app.
  fold (overflow_count (greet_items s)) (overflow_count (keybus_items e s)).
  rewrite greet_items_overflow, keybus_items_overflow.
  destruct (p_ret (poll e)), (overflow_seen e s); simpl; lia.
Qed.

Lemma pass_overflow_account (e : Pass) (s : State) :
  (overflow_count (tx (pass e s)) + pending (pass e s)
   = overflow_count (tx s) + pending s + overflow_set (poll e) s)%nat.
Proof.
  rewrite pass_overflow_balance. unfold overflow_seen, pending, overflow_set.
  destruct (bufferOverflow s), (p_overflow (poll e)); simpl; lia.
Qed.

Lemma passes_overflow_account (es : list Pass) (s : State) :
  (overflow_count (tx (passes es s)) + pending (passes es s)
   = overflow_count (tx s) + pending s + overflows_of_passes es s)%nat.
Proof.
  revert s; induction es as [|e es IH]; intro s.
  - simpl. lia.
  - rewrite passes_cons, IH, pass_overflow_account. simpl. lia.
Qed.

Lemma loop_overflow_account (c : Call) (s : State) :
  (overflow_count (tx (loop c s)) + pending (loop c s)
   = overflow_count (tx s) + pending s + overflows_of_call c s)%nat.
Proof.
  unfold overflows_of_call. destruct (client c) as [es|] eqn:Ec.
  - rewrite (loop_session c es s Ec).
    change (overflow_count (tx (end_session (passes es (session_start c s))))
            + pending (end_session (passes es (session_start c s))))%nat
      with (overflow_count (tx (passes es (session_start c s)))
            + pending (passes es (session_start c s)))%nat.
    rewrite passes_overflow_account. unfold session_start.
    rewrite check_keybus_spec. unfold pending, overflow_set; simpl.
    destruct (bufferOverflow s), (p_overflow (firstPoll c)); simpl; lia.
  - unfold loop. rewrite Ec, check_keybus_spec.
    unfold pending, overflow_set; simpl.
    destruct (bufferOverflow s), (p_overflow (firstPoll c)); simpl; lia.
Qed.

Lemma run_overflow_account (cs : list Call) (s : State) :
  (overflow_count (tx (run cs s)) + pending (run cs s)
   = overflow_count (tx s) + pending s + overflows cs s)%nat.
Proof.
  revert s; induction cs as [|c cs IH]; intro s.
  - simpl. lia.
  - rewrite run_cons, IH, loop_overflow_account. simpl. lia.
Qed.

(** C3: an occurrence of [bufferOverflow] being set is reported at most once
    and the flag is cleared right after the notice: the overflow block prints
    the notice and then clears the flag; a pass prints at most one notice
    and, when it prints one, leaves the flag cleared; and over any run the
    notices printed, plus one if the flag is still set, are exactly as many
    as the occurrences of the flag being set. *)
Theorem C3_overflow_reported_once :
  (forall s : State,
      bufferOverflow s = true ->
      report_overflow s = set_bufferOverflow false (client_print overflow_notice s)) /\
  (forall s : State, bufferOverflow s = false -> report_overflow s = s) /\
  (forall (e : Pass) (s : State),
      (overflow_count (tx (pass e s)) <= overflow_count (tx s) + 1)%nat /\
      (overflow_count (tx (pass e s)) = S (overflow_count (tx s)) ->
       bufferOverflow (pass e s) = false)) /\
  (forall (cs : list Call) (s : State),
      (overflow_count (tx (run cs s)) + pending (run cs s)
       = overflow_count (tx s) + pending s + overflows cs s)%nat).
Proof.
  repeat split.
  - intros s H. unfold report_overflow. now rewrite H.
  - intros s H. unfold report_overflow. now rewrite H.
  - pose proof (pass_overflow_balance e s).
    destruct (overflow_seen e s); lia.
  - intro H. pose proof (pass_overflow_balance e s) as B.
    unfold pending in B. destruct (bufferOverflow (pass e s)); [|reflexivity].
    destruct (overflow_seen e s); lia.
  - intros cs s. apply run_overflow_account.
Qed.

Lemma C3_overflow_reported_once_witness :
  let s := snd (dsc_loop (mkPoll true false false true) initial) in
  report_overflow s = set_bufferOverflow false (client_print overflow_notice s) /\
  report_overflow initial = initial.
Proof.
  destruct C3_overflow_reported_once as (H1 & H2 & _).
  split; [apply H1 | apply H2]; reflexivity.
Defined.

(** ** C4: the timestamp *)

(** *** Comparing binary32 values *)

Lemma digits2_pos_bounds (m : positive) :
  2 ^ (Z.pos (digits2_pos m) - 1) <= Z.pos m < 2 ^ Z.pos (digits2_pos m).
Proof.
  induction m as [m IH|m IH|]; simpl digits2_pos; [| |simpl; lia];
    rewrite Pos2Z.inj_succ;
    replace (Z.succ (Z.pos (digits2_pos m)) - 1)
      with (Z.succ (Z.pos (digits2_pos m) - 1)) by lia;
    rewrite !Z.pow_succ_r by lia; lia.
Qed.

Lemma bounded32 (m : positive) (e : Z) :
  bounded F32.prec F32.emax m e = true ->
  -149 <= e /\ Z.pos (digits2_pos m) <= 24 /\ (-149 < e -> Z.pos (digits2_pos m) = 24).
Proof.
  unfold bounded, canonical_mantissa, fexp, emin, F32.prec, F32.emax.
  intro H. apply andb_prop in H. destruct H as [H _]. apply Z.eqb_eq in H. lia.
Qed.

Lemma scaled_lt (m1 m2 : positive) (e1 e2 : Z) :
  bounded F32.prec F32.emax m1 e1 = true ->
  bounded F32.prec F32.emax m2 e2 = true ->
  e1 < e2 ->
  Z.pos m1 * 2 ^ (e1 + 149) < Z.pos m2 * 2 ^ (e2 + 149).
Proof.
  intros H1 H2 Hlt.
  destruct (bounded32 m1 e1 H1) as (He1 & Hd1 & _).
  destruct (bounded32 m2 e2 H2) as (_ & _ & Hd2).
  pose proof (digits2_pos_bounds m1) as [_ B1].
  pose proof (digits2_pos_bounds m2) as [B2 _].
  rewrite Hd2 in B2 by lia. change (2 ^ (24 - 1)) with 8388608 in B2.
  assert (B1' : Z.pos m1 < 16777216).
  { eapply Z.lt_le_trans; [exact B1|].
    change 16777216 with (2 ^ 24). apply Z.pow_le_mono_r; lia. }
  replace (e2 + 149) with ((e1 + 149) + (e2 - e1)) by lia.
  rewrite (Z.pow_add_r 2 (e1 + 149) (e2 - e1)) by lia.
  assert (P1 : 0 < 2 ^ (e1 + 149)) by (apply Z.pow_pos_nonneg; lia).
  assert (P2 : 2 <= 2 ^ (e2 - e1)).
  { change 2 with (2 ^ 1) at 1. apply Z.pow_le_mono_r; lia. }
  set (a := 2 ^ (e1 + 149)) in *. set (b := 2 ^ (e2 - e1)) in *.
  assert (Z.pos m1 * a < 16777216 * a) by (apply Z.mul_lt_mono_pos_r; lia).
  assert (16777216 * a <= Z.pos m2 * (a * b)).
  { replace (16777216 * a) with (8388608 * (a * 2)) by ring.
    apply Z.mul_le_mono_nonneg; try lia.
    apply Z.mul_le_mono_nonneg_l; lia. }
  lia.
Qed.

Lemma compare_scaled (m1 m2 : positive) (e1 e2 : Z) :
  bounded F32.prec F32.emax m1 e1 = true ->
  bounded F32.prec F32.emax m2 e2 = true ->
  match e1 ?= e2 with
  | Lt => Lt
  | Gt => Gt
  | Eq => Pos.compare_cont Eq m1 m2
  end = (Z.pos m1 * 2 ^ (e1 + 149) ?= Z.pos m2 * 2 ^ (e2 + 149)).
Proof.
  intros H1 H2. destruct (Z.compare_spec e1 e2) as [E|L|G].
  - subst e2. destruct (bounded32 m1 e1 H1) as (He & _).
    change (Pos.compare_cont Eq m1 m2) with (Z.pos m1 ?= Z.pos m2).
    apply Zmult_compare_compat_r.
    apply Z.lt_gt, Z.pow_pos_nonneg; lia.
  - symmetry. apply Z.compare_lt_iff. now apply scaled_lt.
  - symmetry. apply Z.compare_gt_iff. now apply scaled_lt.
Qed.

(** On valid finite binary32 values, the comparison of the sketch is the
    comparison of the values. *)
Lemma SFcompare_units (x y : spec_float) :
  F32.valid x = true -> F32.valid y = true ->
  is_finite x = true -> is_finite y = true ->
  SFcompare x y = Some (float_units x ?= float_units y).
Proof.
  unfold F32.valid.
  destruct x as [sx|sx| |sx mx ex], y as [sy|sy| |sy my ey];
    try discriminate; intros Vx Vy _ _; simpl in Vx, Vy; simpl SFcompare.
  - reflexivity.
  - f_equal. destruct (bounded32 my ey Vy) as (He & _).
    assert (0 < 2 ^ (ey + 149)) by (apply Z.pow_pos_nonneg; lia).
    unfold float_units. destruct sy; symmetry.
    + apply Z.compare_gt_iff. nia.
    + apply Z.compare_lt_iff. nia.
  - f_equal. destruct (bounded32 mx ex Vx) as (He & _).
    assert (0 < 2 ^ (ex + 149)) by (apply Z.pow_pos_nonneg; lia).
    unfold float_units. destruct sx; symmetry.
    + apply Z.compare_lt_iff. nia.
    + apply Z.compare_gt_iff. nia.
  - f_equal.
    destruct (bounded32 mx ex Vx) as (Hex & _).
    destruct (bounded32 my ey Vy) as (Hey & _).
    assert (0 < 2 ^ (ex + 149)) by (apply Z.pow_pos_nonneg; lia).
    assert (0 < 2 ^ (ey + 149)) by (apply Z.pow_pos_nonneg; lia).
    unfold float_units. destruct sx, sy.
    + change (Z.neg mx) with (- Z.pos mx). change (Z.neg my) with (- Z.pos my).
      rewrite !Z.mul_opp_l, Z.compare_opp.
      rewrite <- (compare_scaled my mx ey ex Vy Vx).
      change (Pos.compare_cont Eq mx my) with (mx ?= my)%positive.
      change (Pos.compare_cont Eq my mx) with (my ?= mx)%positive.
      rewrite (Z.compare_antisym ex ey), (Pos.compare_antisym mx my).
      now destruct (ex ?= ey).
    + symmetry. apply Z.compare_lt_iff. nia.
    + symmetry. apply Z.compare_gt_iff. nia.
    + apply compare_scaled; assumption.
Qed.

(** *** Rounding: what the shifts and the final increment do

    One right shift halves the mantissa and remembers what fell off. *)
Lemma shr_1_nonneg (m : Z) (r s : bool) :
  0 <= m ->
  shr_1 (Build_shr_record m r s) = Build_shr_record (m / 2) (Z.odd m) (r || s).
Proof.
  intro Hm. rewrite <- Z.div2_div.
  destruct m as [|p|p]; [reflexivity| |lia].
  destruct p; reflexivity.
Qed.

Lemma mod_mul_zero (m a b : Z) :
  0 < a -> 0 < b -> m mod (a * b) = 0 -> m mod a = 0 /\ (m / a) mod b = 0.
Proof.
  intros Ha Hb H. apply Z.mod_divide in H; [|lia]. destruct H as [k Hk].
  subst m. split.
  - replace (k * (a * b)) with (k * b * a) by ring. apply Z.mod_mul; lia.
  - replace (k * (a * b)) with (k * b * a) by ring. rewrite Z.div_mul by lia.
    apply Z.mod_mul; lia.
Qed.

(** [p] right shifts divide by 2^p; nothing is remembered when nothing
    falls off. *)
Lemma iter_shr (p : positive) :
  forall mrs : shr_record,
    0 <= shr_m mrs ->
    shr_m (iter_pos shr_1 p mrs) = shr_m mrs / 2 ^ Z.pos p /\
    (shr_r mrs = false -> shr_s mrs = false -> shr_m mrs mod 2 ^ Z.pos p = 0 ->
     shr_r (iter_pos shr_1 p mrs) = false /\ shr_s (iter_pos shr_1 p mrs) = false).
Proof.
  assert (Hone : forall mrs : shr_record,
    0 <= shr_m mrs ->
    shr_m (shr_1 mrs) = shr_m mrs / 2 /\
    (shr_r mrs = false -> shr_s mrs = false -> shr_m mrs mod 2 = 0 ->
     shr_r (shr_1 mrs) = false /\ shr_s (shr_1 mrs) = false)).
  { intros [m r s] Hm. simpl in Hm. rewrite shr_1_nonneg by assumption. simpl.
    split; [reflexivity|]. intros -> -> Hmod. split; [|reflexivity].
    rewrite Zmod_odd in Hmod. destruct (Z.odd m); [discriminate|reflexivity]. }
  induction p as [p IH|p IH|]; intros mrs Hm; simpl iter_pos.
  - destruct (Hone mrs Hm) as [H1 E1].
    assert (Hm1 : 0 <= shr_m (shr_1 mrs)) by (rewrite H1; apply Z.div_pos; lia).
    destruct (IH _ Hm1) as [H2 E2].
    assert (Hm2 : 0 <= shr_m (iter_pos shr_1 p (shr_1 mrs)))
      by (rewrite H2; apply Z.div_pos; [lia | apply Z.pow_pos_nonneg; lia]).
    destruct (IH _ Hm2) as [H3 E3].
    assert (P : 0 < 2 ^ Z.pos p) by (apply Z.pow_pos_nonneg; lia).
    replace (2 ^ Z.pos p~1) with (2 * (2 ^ Z.pos p * 2 ^ Z.pos p))
      by (rewrite Pos2Z.inj_xI, Z.pow_add_r, Z.pow_1_r by lia;
          replace (2 * Z.pos p) with (Z.pos p + Z.pos p) by lia;
          rewrite Z.pow_add_r by lia; ring).
    split.
    + rewrite H3, H2, H1, !Z.div_div by lia. reflexivity.
    + intros Hr Hs Hmod.
      apply mod_mul_zero in Hmod; [|lia|nia]. destruct Hmod as [M1 M2].
      apply mod_mul_zero in M2; [|lia|lia]. destruct M2 as [M2 M3].
      destruct (E1 Hr Hs M1) as [Hr1 Hs1]. rewrite <- H1 in M2.
      destruct (E2 Hr1 Hs1 M2) as [Hr2 Hs2].
      apply (E3 Hr2 Hs2). rewrite H2, H1. exact M3.
  - destruct (IH _ Hm) as [H2 E2].
    assert (P : 0 < 2 ^ Z.pos p) by (apply Z.pow_pos_nonneg; lia).
    assert (Hm2 : 0 <= shr_m (iter_pos shr_1 p mrs))
      by (rewrite H2; apply Z.div_pos; lia).
    destruct (IH _ Hm2) as [H3 E3].
    replace (2 ^ Z.pos p~0) with (2 ^ Z.pos p * 2 ^ Z.pos p)
      by (rewrite Pos2Z.inj_xO, <- Z.pow_add_r by lia; f_equal; lia).
    split.
    + rewrite H3, H2, !Z.div_div by lia. reflexivity.
    + intros Hr Hs Hmod.
      apply mod_mul_zero in Hmod; [|lia|lia]. destruct Hmod as [M1 M2].
      destruct (E2 Hr Hs M1) as [Hr2 Hs2].
      apply (E3 Hr2 Hs2). rewrite H2. exact M2.
  - change (2 ^ 1) with 2. apply Hone. exact Hm.
Qed.

(** The number of binary digits is determined by the binade. *)
Lemma digits_unique (p : positive) (k : Z) :
  2 ^ (k - 1) <= Z.pos p < 2 ^ k -> Z.pos (digits2_pos p) = k.
Proof.
  intros [L U]. pose proof (digits2_pos_bounds p) as [L' U'].
  set (d := Z.pos (digits2_pos p)) in *.
  destruct (Z.lt_trichotomy d k) as [H|[H|H]]; [|exact H|]; exfalso.
  - assert (2 ^ d <= 2 ^ (k - 1)) by (apply Z.pow_le_mono_r; lia). lia.
  - assert (0 <= k).
    { destruct (Z.lt_ge_cases k 0) as [N|N]; [|exact N].
      rewrite Z.pow_neg_r in U by exact N. lia. }
    assert (2 ^ k <= 2 ^ (d - 1)) by (apply Z.pow_le_mono_r; lia). lia.
Qed.

Section Rounding.
(** The format: [prec] bits of mantissa, exponents below [emax]. *)
Variables prec emax : Z.
Hypothesis Hprec : 0 < prec.

(** The second normalisation of [binary_round_aux]: a mantissa that the
    increment has carried to 2^prec is halved, any other is left alone. *)
Lemma carry_phase (m1 e1 : Z) :
  2 ^ (prec - 1) <= m1 <= 2 ^ prec ->
  3 - emax - prec <= e1 ->
  shr_fexp prec emax m1 e1 loc_Exact
  = if m1 <? 2 ^ prec
    then (Build_shr_record m1 false false, e1)
    else (Build_shr_record (2 ^ (prec - 1)) false false, e1 + 1).
Proof.
  intros [L U] He.
  assert (P : 0 < 2 ^ (prec - 1)) by (apply Z.pow_pos_nonneg; lia).
  assert (Hpow : 2 ^ prec = 2 * 2 ^ (prec - 1)).
  { replace prec with (Z.succ (prec - 1)) at 1 by lia. apply Z.pow_succ_r. lia. }
  destruct m1 as [|p|p]; try lia.
  unfold shr_fexp, fexp, emin. simpl Zdigits2. simpl shr_record_of_loc.
  destruct (Z.ltb_spec (Z.pos p) (2 ^ prec)) as [Hlt|Hge].
  - rewrite (digits_unique p prec) by lia.
    replace (Z.max (prec + e1 - prec) (3 - emax - prec) - e1) with 0 by lia.
    reflexivity.
  - assert (Hp : Z.pos p = 2 ^ prec) by lia.
    rewrite (digits_unique p (prec + 1)).
    + replace (Z.max (prec + 1 + e1 - prec) (3 - emax - prec) - e1) with 1 by lia.
      unfold shr. cbn [iter_pos]. rewrite shr_1_nonneg by lia. cbn [fst snd].
      f_equal. f_equal.
      * rewrite Hp, Hpow. rewrite Z.mul_comm, Z.div_mul by lia. reflexivity.
      * rewrite Hp, Hpow. rewrite Z.odd_mul. reflexivity.
    + replace (prec + 1 - 1) with prec by lia. split; [lia|].
      rewrite Z.pow_add_r, Z.pow_1_r by lia. lia.
Qed.

(** [binary_round_aux] on a mantissa of [prec + n] digits, in the normal
    range: the result is one of the two [prec]-digit neighbours of the
    mantissa shifted by [n], and the shifted mantissa itself when the
    input is exact. *)
Lemma round_aux_faithful (m : positive) (e n : Z) (loc : location) :
  0 <= n ->
  Z.pos (digits2_pos m) = prec + n ->
  3 - emax - prec <= e + n ->
  e + n + 1 <= emax - prec ->
  exists (m' : positive) (e' : Z),
    binary_round_aux prec emax false (Z.pos m) e loc = S754_finite false m' e' /\
    bounded prec emax m' e' = true /\
    Z.pos (digits2_pos m') = prec /\
    ((e' = e + n /\ (Z.pos m' = Z.pos m / 2 ^ n \/ Z.pos m' = Z.pos m / 2 ^ n + 1)) \/
     (e' = e + n + 1 /\ 2 * Z.pos m' = Z.pos m / 2 ^ n + 1)) /\
    (loc = loc_Exact -> Z.pos m mod 2 ^ n = 0 ->
     e' = e + n /\ Z.pos m' = Z.pos m / 2 ^ n).
Proof.
  intros Hn Hd Hlo Hhi.
  assert (P : 0 < 2 ^ (prec - 1)) by (apply Z.pow_pos_nonneg; lia).
  assert (Pn : 0 < 2 ^ n) by (apply Z.pow_pos_nonneg; lia).
  assert (Hpow : 2 ^ prec = 2 * 2 ^ (prec - 1)).
  { replace prec with (Z.succ (prec - 1)) at 1 by lia. apply Z.pow_succ_r. lia. }
  pose proof (digits2_pos_bounds m) as [Lm Um]. rewrite Hd in Lm, Um.
  set (a := Z.pos m / 2 ^ n).
  assert (Ha : 2 ^ (prec - 1) <= a < 2 ^ prec).
  { unfold a. split.
    - apply Z.div_le_lower_bound; [lia|].
      rewrite <- Z.pow_add_r by lia. replace (n + (prec - 1)) with (prec + n - 1) by lia.
      exact Lm.
    - apply Z.div_lt_upper_bound; [lia|].
      rewrite <- Z.pow_add_r by lia. replace (n + prec) with (prec + n) by lia.
      exact Um. }
  (* first shift *)
  assert (S1 : exists r s,
             shr_fexp prec emax (Z.pos m) e loc = (Build_shr_record a r s, e + n) /\
             (loc = loc_Exact -> Z.pos m mod 2 ^ n = 0 -> r = false /\ s = false)).
  { unfold shr_fexp, fexp, emin. simpl Zdigits2. rewrite Hd.
    replace (Z.max (prec + n + e - prec) (3 - emax - prec) - e) with n by lia.
    destruct n as [|p|p]; [| |lia].
    - unfold shr. exists (shr_r (shr_record_of_loc (Z.pos m) loc)),
                    (shr_s (shr_record_of_loc (Z.pos m) loc)).
      split.
      + f_equal; [|lia]. unfold a. rewrite Z.pow_0_r, Z.div_1_r.
        destruct loc as [|[]]; reflexivity.
      + intros -> _. split; reflexivity.
    - unfold shr.
      destruct (iter_shr p (shr_record_of_loc (Z.pos m) loc)) as [H1 H2].
      { destruct loc as [|[]]; simpl; lia. }
      exists (shr_r (iter_pos shr_1 p (shr_record_of_loc (Z.pos m) loc))),
             (shr_s (iter_pos shr_1 p (shr_record_of_loc (Z.pos m) loc))).
      split.
      + f_equal. destruct (iter_pos shr_1 p (shr_record_of_loc (Z.pos m) loc)) as [m0 r0 s0].
        simpl in *. f_equal. rewrite H1. unfold a. destruct loc as [|[]]; reflexivity.
      + intros -> Hmod. apply H2; try reflexivity. exact Hmod. }
  destruct S1 as (r & s & S1 & Ex).
  unfold binary_round_aux. rewrite S1. cbn [shr_m].
  remember (round_nearest_even a (loc_of_shr_record (Build_shr_record a r s)))
    as m1 eqn:Em1.
  assert (Hm1 : (m1 = a \/ m1 = a + 1) /\ (r = false -> s = false -> m1 = a)).
  { subst m1. simpl. destruct r, s; simpl; try destruct (Z.even a); auto;
      split; auto; discriminate. }
  clear Em1. destruct Hm1 as [Hm1 Hm1e].
  rewrite carry_phase by lia.
  destruct (Z.ltb_spec m1 (2 ^ prec)) as [Hlt|Hge]; simpl.
  - assert (Hpos : 0 < m1) by lia. destruct m1 as [|p1|p1]; try lia.
    exists p1, (e + n).
    assert (Hd1 : Z.pos (digits2_pos p1) = prec) by (apply digits_unique; lia).
    replace (e + n <=? emax - prec) with true by (symmetry; apply Z.leb_le; lia).
    split; [reflexivity|]. split; [|split; [exact Hd1|split]].
    + unfold bounded, canonical_mantissa, fexp, emin. rewrite Hd1.
      apply andb_true_intro. split; [apply Z.eqb_eq | apply Z.leb_le]; lia.
    + left. split; [reflexivity|]. fold a. lia.
    + intros Hl Hmod. destruct (Ex Hl Hmod) as [-> ->].
      split; [reflexivity|]. fold a. now apply Hm1e.
  - assert (Hm : m1 = 2 ^ prec) by lia.
    destruct (2 ^ (prec - 1)) as [|p1|p1] eqn:E1; try lia.
    exists p1, (e + n + 1).
    assert (Hd1 : Z.pos (digits2_pos p1) = prec).
    { apply digits_unique. rewrite <- E1. lia. }
    replace (e + n + 1 <=? emax - prec) with true by (symmetry; apply Z.leb_le; lia).
    split; [reflexivity|]. split; [|split; [exact Hd1|split]].
    + unfold bounded, canonical_mantissa, fexp, emin. rewrite Hd1.
      apply andb_true_intro. split; [apply Z.eqb_eq | apply Z.leb_le]; lia.
    + right. split; [reflexivity|]. fold a. lia.
    + intros Hl Hmod. destruct (Ex Hl Hmod) as [-> ->].
      exfalso. rewrite Hm1e in Hm by reflexivity. lia.
Qed.

End Rounding.

(** *** The three steps of [timeStamp_of] *)

Lemma pos_iter_xO (p k : positive) :
  Z.pos (Pos.iter xO p k) = Z.pos p * 2 ^ Z.pos k.
Proof.
  induction k as [|k IH] using Pos.peano_ind.
  - simpl. lia.
  - rewrite Pos.iter_succ, Pos2Z.inj_succ, Z.pow_succ_r by lia.
    rewrite Pos2Z.inj_xO, IH. ring.
Qed.

(** Converting an integer below 2^53 to [double] is exact. *)
Lemma of_Z_pos (p : positive) (d : Z) :
  Z.pos (digits2_pos p) = d -> d <= 53 ->
  exists m : positive,
    F64.of_Z (Z.pos p) = S754_finite false m (d - 53) /\
    Z.pos m = Z.pos p * 2 ^ (53 - d) /\
    Z.pos (digits2_pos m) = 53.
Proof.
  intros Hd Hle.
  pose proof (digits2_pos_bounds p) as [L U]. rewrite Hd in L, U.
  assert (Hd0 : 0 < d) by (rewrite <- Hd; lia).
  unfold F64.of_Z, F64.normalize, binary_normalize, binary_round.
  unfold fexp at 1, emin, F64.prec, F64.emax. rewrite Hd.
  replace (Z.max (d + 0 - 53) (3 - 1024 - 53)) with (d - 53) by lia.
  assert (Hm : exists m : positive,
             shl_align p 0 (d - 53) = (m, d - 53) /\
             Z.pos m = Z.pos p * 2 ^ (53 - d)).
  { unfold shl_align. destruct (d - 53 - 0) as [|k|k] eqn:E; try lia.
    - exists p. replace (d - 53) with 0 by lia. split; [reflexivity|].
      replace (53 - d) with 0 by lia. lia.
    - exists (Pos.iter xO p k). split; [reflexivity|].
      rewrite pos_iter_xO. f_equal. f_equal. lia. }
  destruct Hm as (m & Hs & Hm). rewrite Hs.
  assert (Hdm : Z.pos (digits2_pos m) = 53).
  { apply digits_unique. rewrite Hm. split.
    - replace (53 - 1) with ((d - 1) + (53 - d)) by lia.
      rewrite Z.pow_add_r by lia. apply Z.mul_le_mono_nonneg_r; [|exact L].
      apply Z.pow_nonneg; lia.
    - replace 53 with (d + (53 - d)) at 2 by lia.
      rewrite Z.pow_add_r by lia. apply Z.mul_lt_mono_pos_r; [|exact U].
      apply Z.pow_pos_nonneg; lia. }
  destruct (round_aux_faithful 53 1024 ltac:(lia) m (d - 53) 0 loc_Exact)
    as (m' & e' & R & _ & _ & _ & Ex); try lia.
  destruct Ex as [He' Hm']; [reflexivity | apply Z.mod_1_r |].
  rewrite Z.pow_0_r, Z.div_1_r in Hm'. injection Hm' as Hm'. subst m'.
  exists m. rewrite R. replace e' with (d - 53) by lia. auto.
Qed.

(** Narrowing a [double] to [float] drops 29 bits of the mantissa. *)
Lemma narrow_faithful (m : positive) (e : Z) :
  Z.pos (digits2_pos m) = 53 ->
  -170 <= e <= 70 ->
  exists (m' : positive) (e' : Z),
    double_to_float (S754_finite false m e) = S754_finite false m' e' /\
    bounded F32.prec F32.emax m' e' = true /\
    ((e' = e + 29 /\ (Z.pos m' = Z.pos m / 2 ^ 29 \/ Z.pos m' = Z.pos m / 2 ^ 29 + 1)) \/
     (e' = e + 30 /\ 2 * Z.pos m' = Z.pos m / 2 ^ 29 + 1)) /\
    (Z.pos m mod 2 ^ 29 = 0 -> e' = e + 29 /\ Z.pos m' = Z.pos m / 2 ^ 29).
Proof.
  intros Hd He.
  unfold double_to_float, convert, F32.normalize, binary_normalize, binary_round.
  unfold fexp at 1, emin, F32.prec, F32.emax. rewrite Hd.
  replace (Z.max (53 + e - 24) (3 - 128 - 24)) with (e + 29) by lia.
  unfold shl_align. replace (e + 29 - e) with 29 by lia.
  destruct (round_aux_faithful 24 128 ltac:(lia) m e 29 loc_Exact)
    as (m' & e' & R & B & _ & V & Ex); try lia.
  exists m', e'. split; [exact R|]. split; [exact B|]. split.
  - replace (e + 30) with (e + 29 + 1) by lia. exact V.
  - intro Hmod. now apply Ex.
Qed.

(** Dividing a [double] by 1000.0: the quotient of the mantissas has 53 or
    54 digits. *)
Lemma div1000_faithful (mx : positive) (ex : Z) :
  Z.pos (digits2_pos mx) = 53 ->
  -100 <= ex <= 100 ->
  exists (n : Z) (m1 : positive) (e1 : Z),
    (n = 0 \/ n = 1) /\
    2 ^ (52 + n) <= Z.pos mx * 2 ^ 53 / my1000 < 2 ^ (53 + n) /\
    F64.div (S754_finite false mx ex) (F64.of_Z 1000) = S754_finite false m1 e1 /\
    Z.pos (digits2_pos m1) = 53 /\
    ((e1 = ex - 10 + n /\
      (Z.pos m1 = Z.pos mx * 2 ^ 53 / my1000 / 2 ^ n \/
       Z.pos m1 = Z.pos mx * 2 ^ 53 / my1000 / 2 ^ n + 1)) \/
     (e1 = ex - 10 + n + 1 /\ 2 * Z.pos m1 = Z.pos mx * 2 ^ 53 / my1000 / 2 ^ n + 1)) /\
    ((Z.pos mx * 2 ^ 53) mod my1000 = 0 ->
     (Z.pos mx * 2 ^ 53 / my1000) mod 2 ^ n = 0 ->
     e1 = ex - 10 + n /\ Z.pos m1 = Z.pos mx * 2 ^ 53 / my1000 / 2 ^ n).
Proof.
  intros Hd He.
  pose proof (digits2_pos_bounds mx) as [L U]. rewrite Hd in L, U.
  change (2 ^ (53 - 1)) with 4503599627370496 in L.
  change (2 ^ 53) with 9007199254740992 in U.
  change (F64.of_Z 1000) with (S754_finite false 8796093022208000 (-43)).
  unfold F64.div, SFdiv, SFdiv_core_binary. cbn [xorb Zdigits2]. rewrite Hd.
  change (Z.pos (digits2_pos 8796093022208000)) with 53.
  unfold fexp, emin, F64.prec, F64.emax.
  replace (Z.min (Z.max (53 + ex - (53 + -43) - 53) (3 - 1024 - 53)) (ex - -43))
    with (ex - 10) by lia.
  replace (ex - -43 - (ex - 10)) with 53 by lia.
  cbv iota. rewrite Z.shiftl_mul_pow2 by lia.
  set (m' := Z.pos mx * 2 ^ 53). fold my1000.
  assert (Hq : Z.div_eucl m' my1000 = (m' / my1000, m' mod my1000)).
  { unfold Z.div, Z.modulo. now destruct (Z.div_eucl m' my1000). }
  change (Z.pos 8796093022208000) with my1000. rewrite Hq.
  set (q := m' / my1000). set (r := m' mod my1000).
  assert (Bq : 4503599627370496 <= q < 18014398509481984).
  { unfold q, m', my1000. change (2 ^ 53) with 9007199254740992. split.
    - apply Z.div_le_lower_bound; lia.
    - apply Z.div_lt_upper_bound; lia. }
  set (n := if q <? 9007199254740992 then 0 else 1).
  assert (Hn : (n = 0 \/ n = 1) /\ 2 ^ (52 + n) <= q < 2 ^ (53 + n)).
  { unfold n. destruct (Z.ltb_spec q 9007199254740992).
    - split; [now left|]. change (2 ^ (52 + 0)) with 4503599627370496.
      change (2 ^ (53 + 0)) with 9007199254740992. lia.
    - split; [now right|]. change (2 ^ (52 + 1)) with 9007199254740992.
      change (2 ^ (53 + 1)) with 18014398509481984. lia. }
  destruct Hn as [Hn Bn].
  destruct q as [|qp|qp] eqn:Eq; try lia.
  assert (Hdq : Z.pos (digits2_pos qp) = 53 + n).
  { apply digits_unique. replace (53 + n - 1) with (52 + n) by lia. exact Bn. }
  destruct (round_aux_faithful 53 1024 ltac:(lia) qp (ex - 10) n
              (new_location my1000 r))
    as (m1 & e1 & R & _ & D1 & V & Ex); try lia.
  exists n, m1, e1. split; [exact Hn|]. split; [exact Bn|].
  split; [exact R|]. split; [exact D1|]. split; [exact V|].
  intros Hr Hmod. apply Ex; [|exact Hmod].
  fold r in Hr. rewrite Hr. reflexivity.
Qed.

(** A faithful rounding never crosses a representable value: [out] is one
    of the two neighbours of M / Dn on the grid of step 2^u, and the value
    itself when that lies on the grid. *)
Lemma grid (p u kc mc M Dn A out : Z) :
  0 < Dn -> 0 <= u -> 0 <= kc -> 0 < p ->
  A = M / (Dn * 2 ^ u) ->
  2 ^ (p - 1) <= A ->
  out = A * 2 ^ u \/ out = (A + 1) * 2 ^ u ->
  (M mod (Dn * 2 ^ u) = 0 -> out = A * 2 ^ u) ->
  2 ^ (p - 1) <= mc < 2 ^ p ->
  (mc * 2 ^ kc * Dn <= M -> mc * 2 ^ kc <= out) /\
  (M <= mc * 2 ^ kc * Dn -> out <= mc * 2 ^ kc).
Proof.
  intros HD Hu Hk Hp HA HpA Hout Hex Hmc.
  assert (PU : 0 < 2 ^ u) by (apply Z.pow_pos_nonneg; lia).
  assert (PK : 0 < 2 ^ kc) by (apply Z.pow_pos_nonneg; lia).
  assert (PD : 0 < Dn * 2 ^ u) by lia.
  assert (Hpow : 2 ^ p = 2 * 2 ^ (p - 1)).
  { replace p with (Z.succ (p - 1)) at 1 by lia. apply Z.pow_succ_r. lia. }
  assert (Pp : 0 < 2 ^ (p - 1)) by (apply Z.pow_pos_nonneg; lia).
  assert (Fl : A * (Dn * 2 ^ u) <= M < (A + 1) * (Dn * 2 ^ u)).
  { subst A. pose proof (Z.div_mod M (Dn * 2 ^ u) ltac:(lia)).
    pose proof (Z.mod_pos_bound M (Dn * 2 ^ u) PD). nia. }
  assert (Hlo : A * 2 ^ u <= out) by (destruct Hout; nia).
  destruct (Z.le_gt_cases u kc) as [Hge|Hlt].
  - (* the value lies on the grid of the result *)
    set (C := mc * 2 ^ (kc - u)).
    assert (HC : mc * 2 ^ kc = C * 2 ^ u).
    { unfold C. rewrite <- Z.mul_assoc, <- Z.pow_add_r by lia.
      f_equal. f_equal. lia. }
    rewrite HC. split; intro H.
    + assert (C <= A).
      { subst A. apply Z.div_le_lower_bound; [lia|]. nia. }
      nia.
    + assert (A <= C).
      { destruct (Z.le_gt_cases A C) as [G|G]; [exact G|].
        exfalso. assert (C + 1 <= A) by lia. nia. }
      destruct (Z.eq_dec A C) as [E|NE].
      * assert (HM : M = A * (Dn * 2 ^ u)) by nia.
        rewrite Hex; [nia|]. rewrite HM. apply Z.mod_mul. lia.
      * assert (A + 1 <= C) by lia. destruct Hout; nia.
  - (* the value lies below the binade of the result *)
    assert (HB : mc * 2 ^ kc < A * 2 ^ u).
    { assert (2 ^ (kc + 1) <= 2 ^ u) by (apply Z.pow_le_mono_r; lia).
      rewrite Z.pow_add_r, Z.pow_1_r in H by lia.
      assert (mc * 2 ^ kc < 2 ^ p * 2 ^ kc) by (apply Z.mul_lt_mono_pos_r; lia).
      assert (2 ^ (p - 1) * 2 ^ u <= A * 2 ^ u) by (apply Z.mul_le_mono_nonneg_r; lia).
      nia. }
    split; intro H; [lia|]. exfalso. nia.
Qed.

(** The [double] quotient and the [float] it is narrowed to, against a
    value [mc * 2^kc] of the target format; values are scaled by 2^64. *)
Lemma quotient_faithful (p : positive) (mc kc : Z) :
  Z.pos p < 2 ^ 32 ->
  2 ^ 52 <= mc < 2 ^ 53 -> 0 <= kc ->
  exists (m1 : positive) (e1 : Z),
    F64.div (F64.of_Z (Z.pos p)) (F64.of_Z 1000) = S754_finite false m1 e1 /\
    Z.pos (digits2_pos m1) = 53 /\
    -63 <= e1 <= -29 /\
    (mc * 2 ^ kc * 1000 <= Z.pos p * 2 ^ 64 -> mc * 2 ^ kc <= Z.pos m1 * 2 ^ (e1 + 64)) /\
    (Z.pos p * 2 ^ 64 <= mc * 2 ^ kc * 1000 -> Z.pos m1 * 2 ^ (e1 + 64) <= mc * 2 ^ kc).
Proof.
  intros Hp Hmc Hkc.
  set (d := Z.pos (digits2_pos p)).
  assert (Hd : 1 <= d <= 32).
  { pose proof (digits2_pos_bounds p) as [L _]. fold d in L. split; [unfold d; lia|].
    destruct (Z.le_gt_cases d 32) as [G|G]; [exact G|]. exfalso.
    assert (2 ^ 32 <= 2 ^ (d - 1)) by (apply Z.pow_le_mono_r; lia). lia. }
  destruct (of_Z_pos p d eq_refl ltac:(lia)) as (mx & Hx & Hmx & Hdx).
  destruct (div1000_faithful mx (d - 53) Hdx ltac:(lia))
    as (n & m1 & e1 & Hn & Bq & R & D1 & V & Ex).
  exists m1, e1. rewrite Hx. split; [exact R|]. split; [exact D1|].
  split; [destruct V as [[-> _]|[-> _]]; lia|].
  set (q := Z.pos mx * 2 ^ 53 / my1000) in *.
  assert (Pn : 0 < 2 ^ n) by (apply Z.pow_pos_nonneg; lia).
  assert (Pc : 0 < 2 ^ (42 - d)) by (apply Z.pow_pos_nonneg; lia).
  assert (Pu : 0 < 2 ^ (d + 1 + n)) by (apply Z.pow_pos_nonneg; lia).
  assert (Num : Z.pos mx * 2 ^ 53 = Z.pos p * 2 ^ 64 * 2 ^ (42 - d)).
  { rewrite Hmx, <- !Z.mul_assoc, <- !Z.pow_add_r by lia. f_equal. f_equal. lia. }
  assert (Den : my1000 * 2 ^ n = 1000 * 2 ^ (d + 1 + n) * 2 ^ (42 - d)).
  { unfold my1000. change 8796093022208000 with (1000 * 2 ^ 43).
    rewrite <- !Z.mul_assoc, <- !Z.pow_add_r by lia. f_equal. f_equal. lia. }
  assert (HA : q / 2 ^ n = Z.pos p * 2 ^ 64 / (1000 * 2 ^ (d + 1 + n))).
  { unfold q. rewrite Z.div_div by (unfold my1000; lia).
    rewrite Num, Den. apply Z.div_mul_cancel_r; lia. }
  assert (G1 : 2 ^ (53 - 1) <= q / 2 ^ n).
  { change (2 ^ (53 - 1)) with (2 ^ 52). apply Z.div_le_lower_bound; [lia|].
    rewrite <- Z.pow_add_r by lia. replace (n + 52) with (52 + n) by lia. apply Bq. }
  assert (G2 : Z.pos m1 * 2 ^ (e1 + 64) = q / 2 ^ n * 2 ^ (d + 1 + n) \/
               Z.pos m1 * 2 ^ (e1 + 64) = (q / 2 ^ n + 1) * 2 ^ (d + 1 + n)).
  { destruct V as [[-> [H|H]]|[-> H]].
    - left. rewrite H. f_equal. f_equal. lia.
    - right. rewrite H. f_equal. f_equal. lia.
    - right. replace (d - 53 - 10 + n + 1 + 64) with (Z.succ (d + 1 + n)) by lia.
      rewrite Z.pow_succ_r by lia. rewrite <- H. ring. }
  assert (G3 : (Z.pos p * 2 ^ 64) mod (1000 * 2 ^ (d + 1 + n)) = 0 ->
               Z.pos m1 * 2 ^ (e1 + 64) = q / 2 ^ n * 2 ^ (d + 1 + n)).
  { intro Hmod.
    assert (Hm : (Z.pos mx * 2 ^ 53) mod (my1000 * 2 ^ n) = 0).
    { rewrite Num, Den, Z.mul_mod_distr_r by lia. rewrite Hmod. reflexivity. }
    apply mod_mul_zero in Hm; [|unfold my1000; lia|lia]. destruct Hm as [M1 M2].
    destruct (Ex M1 M2) as [-> ->]. f_equal. f_equal. lia. }
  apply (grid 53 (d + 1 + n) kc mc (Z.pos p * 2 ^ 64) 1000 (q / 2 ^ n)
              (Z.pos m1 * 2 ^ (e1 + 64)) ltac:(lia) ltac:(lia) Hkc ltac:(lia)
              HA G1 G2 G3 Hmc).
Qed.

Lemma narrowing_faithful (m1 : positive) (e1 mc kc : Z) :
  Z.pos (digits2_pos m1) = 53 ->
  -63 <= e1 <= -29 ->
  2 ^ 23 <= mc < 2 ^ 24 -> 0 <= kc ->
  exists (m2 : positive) (e2 : Z),
    double_to_float (S754_finite false m1 e1) = S754_finite false m2 e2 /\
    bounded F32.prec F32.emax m2 e2 = true /\
    -64 <= e2 /\
    (mc * 2 ^ kc <= Z.pos m1 * 2 ^ (e1 + 64) -> mc * 2 ^ kc <= Z.pos m2 * 2 ^ (e2 + 64)) /\
    (Z.pos m1 * 2 ^ (e1 + 64) <= mc * 2 ^ kc -> Z.pos m2 * 2 ^ (e2 + 64) <= mc * 2 ^ kc).
Proof.
  intros Hd He Hmc Hkc.
  pose proof (digits2_pos_bounds m1) as [L U]. rewrite Hd in L, U.
  change (2 ^ (53 - 1)) with (2 ^ 52) in L.
  destruct (narrow_faithful m1 e1 Hd ltac:(lia)) as (m2 & e2 & R & B & V & Ex).
  exists m2, e2. split; [exact R|]. split; [exact B|].
  split; [destruct V as [[-> _]|[-> _]]; lia|].
  assert (Pc : 0 < 2 ^ (e1 + 64)) by (apply Z.pow_pos_nonneg; lia).
  assert (Hu : 2 ^ (e1 + 93) = 2 ^ 29 * 2 ^ (e1 + 64)).
  { rewrite <- Z.pow_add_r by lia. f_equal. lia. }
  assert (G0 : Z.pos m1 / 2 ^ 29 = Z.pos m1 * 2 ^ (e1 + 64) / (1 * 2 ^ (e1 + 93))).
  { rewrite Z.mul_1_l, Hu. symmetry. apply Z.div_mul_cancel_r; lia. }
  assert (G1 : 2 ^ (24 - 1) <= Z.pos m1 / 2 ^ 29).
  { change (2 ^ (24 - 1)) with (2 ^ 23). apply Z.div_le_lower_bound; [lia|].
    rewrite <- Z.pow_add_r by lia. exact L. }
  assert (G2 : Z.pos m2 * 2 ^ (e2 + 64) = Z.pos m1 / 2 ^ 29 * 2 ^ (e1 + 93) \/
               Z.pos m2 * 2 ^ (e2 + 64) = (Z.pos m1 / 2 ^ 29 + 1) * 2 ^ (e1 + 93)).
  { destruct V as [[-> [H|H]]|[-> H]].
    - left. rewrite H. f_equal. f_equal. lia.
    - right. rewrite H. f_equal. f_equal. lia.
    - right. replace (e1 + 30 + 64) with (Z.succ (e1 + 93)) by lia.
      rewrite Z.pow_succ_r by lia. rewrite <- H. ring. }
  assert (G3 : (Z.pos m1 * 2 ^ (e1 + 64)) mod (1 * 2 ^ (e1 + 93)) = 0 ->
               Z.pos m2 * 2 ^ (e2 + 64) = Z.pos m1 / 2 ^ 29 * 2 ^ (e1 + 93)).
  { rewrite Z.mul_1_l, Hu, Z.mul_mod_distr_r by lia. intro Hmod.
    assert (Hm : Z.pos m1 mod 2 ^ 29 = 0) by nia.
    destruct (Ex Hm) as [-> ->]. rewrite <- Hu. f_equal. f_equal. lia. }
  pose proof (grid 24 (e1 + 93) kc mc (Z.pos m1 * 2 ^ (e1 + 64)) 1 (Z.pos m1 / 2 ^ 29)
              (Z.pos m2 * 2 ^ (e2 + 64)) ltac:(lia) ltac:(lia) Hkc ltac:(lia)
              G0 G1 G2 G3 Hmc) as H.
  rewrite !Z.mul_1_r in H. exact H.
Qed.

(** [timeStamp_of] is a faithful rounding of millis / 1000: it is a valid
    binary32 value and lies on the same side of every binary32 value as
    the exact quotient. *)
Lemma timeStamp_faithful (p : positive) (mc ec : Z) :
  Z.pos p < 2 ^ 32 ->
  2 ^ 23 <= mc < 2 ^ 24 -> -35 <= ec ->
  exists (m2 : positive) (e2 : Z),
    timeStamp_of (Z.pos p) = S754_finite false m2 e2 /\
    bounded F32.prec F32.emax m2 e2 = true /\
    -64 <= e2 /\
    (mc * 2 ^ (ec + 64) * 1000 <= Z.pos p * 2 ^ 64 ->
     mc * 2 ^ (ec + 64) <= Z.pos m2 * 2 ^ (e2 + 64)) /\
    (Z.pos p * 2 ^ 64 <= mc * 2 ^ (ec + 64) * 1000 ->
     Z.pos m2 * 2 ^ (e2 + 64) <= mc * 2 ^ (ec + 64)).
Proof.
  intros Hp Hmc Hec.
  assert (Hc : mc * 2 ^ (ec + 64) = mc * 2 ^ 29 * 2 ^ (ec + 35)).
  { rewrite <- Z.mul_assoc, <- Z.pow_add_r by lia. f_equal. f_equal. lia. }
  destruct (quotient_faithful p (mc * 2 ^ 29) (ec + 35) Hp) as (m1 & e1 & R1 & D1 & E1 & Lo1 & Hi1).
  { change (2 ^ 52) with (2 ^ 23 * 2 ^ 29). change (2 ^ 53) with (2 ^ 24 * 2 ^ 29).
    split; [apply Z.mul_le_mono_nonneg_r | apply Z.mul_lt_mono_pos_r]; lia. }
  { lia. }
  destruct (narrowing_faithful m1 e1 mc (ec + 64) D1 E1 Hmc ltac:(lia))
    as (m2 & e2 & R2 & B2 & E2 & Lo2 & Hi2).
  exists m2, e2. unfold timeStamp_of. rewrite R1. split; [exact R2|].
  split; [exact B2|]. split; [exact E2|]. rewrite <- Hc in Lo1, Hi1. split; auto.
Qed.

(** *** The comparisons of [printTimestamp] *)

Lemma SFltb_scaled (m2 mT : positive) (e2 eT : Z) :
  bounded F32.prec F32.emax m2 e2 = true ->
  bounded F32.prec F32.emax mT eT = true ->
  -64 <= e2 -> -64 <= eT ->
  SFltb (S754_finite false m2 e2) (S754_finite false mT eT)
  = (Z.pos m2 * 2 ^ (e2 + 64) <? Z.pos mT * 2 ^ (eT + 64)).
Proof.
  intros B2 BT H2 HT. unfold SFltb.
  rewrite (SFcompare_units (S754_finite false m2 e2) (S754_finite false mT eT))
    by (try exact B2; try exact BT; reflexivity).
  change (float_units (S754_finite false m2 e2)) with (Z.pos m2 * 2 ^ (e2 + 149)).
  change (float_units (S754_finite false mT eT)) with (Z.pos mT * 2 ^ (eT + 149)).
  unfold Z.ltb.
  replace (e2 + 149) with (e2 + 64 + 85) by lia.
  replace (eT + 149) with (eT + 64 + 85) by lia.
  rewrite (Z.pow_add_r 2 (e2 + 64) 85), (Z.pow_add_r 2 (eT + 64) 85) by lia.
  rewrite !Z.mul_assoc.
  rewrite <- Zmult_compare_compat_r by (apply Z.lt_gt, Z.pow_pos_nonneg; lia).
  reflexivity.
Qed.

(** The four comparisons of [printTimestamp] decide on which side of the
    constant the exact quotient millis / 1000 lies. *)
Lemma timeStamp_lt (millis T : Z) :
  0 <= millis < 2 ^ 32 ->
  T = 10 \/ T = 100 \/ T = 1000 \/ T = 10000 ->
  float_lt (timeStamp_of millis) T = (millis <? 1000 * T).
Proof.
  intros Hms HT. destruct millis as [|p|p]; [| |lia].
  { destruct HT as [->|[->|[->| ->]]]; reflexivity. }
  assert (Hp : Z.pos p < 2 ^ 32) by lia.
  assert (C : exists (mT : positive) (eT : Z),
             F32.of_Z T = S754_finite false mT eT /\
             bounded F32.prec F32.emax mT eT = true /\
             -35 <= eT <= 0 /\ 2 ^ 23 + 1 <= Z.pos mT < 2 ^ 24 /\
             Z.pos mT * 2 ^ (eT + 64) = T * 2 ^ 64 /\
             (1000 * T - 1) * 2 ^ 64 <= (Z.pos mT - 1) * 2 ^ (eT + 64) * 1000).
  { destruct HT as [->|[->|[->| ->]]].
    - exists 10485760%positive, (-20). repeat split; try reflexivity; try discriminate.
    - exists 13107200%positive, (-17). repeat split; try reflexivity; try discriminate.
    - exists 16384000%positive, (-14). repeat split; try reflexivity; try discriminate.
    - exists 10240000%positive, (-10). repeat split; try reflexivity; try discriminate. }
  destruct C as (mT & eT & HeqT & BT & HeT & HmT & HvT & HpT).
  assert (P64 : 0 < 2 ^ 64) by (apply Z.pow_pos_nonneg; lia).
  assert (PT : 0 < 2 ^ (eT + 64)) by (apply Z.pow_pos_nonneg; lia).
  unfold float_lt. rewrite HeqT.
  destruct (Z.ltb_spec (Z.pos p) (1000 * T)) as [Hlt|Hge].
  - destruct (timeStamp_faithful p (Z.pos mT - 1) eT Hp ltac:(lia) ltac:(lia))
      as (m2 & e2 & R & B2 & E2 & _ & Hi).
    rewrite R, SFltb_scaled by (try assumption; lia).
    apply Z.ltb_lt.
    assert (Z.pos m2 * 2 ^ (e2 + 64) <= (Z.pos mT - 1) * 2 ^ (eT + 64)).
    { apply Hi. eapply Z.le_trans; [|exact HpT].
      apply Z.mul_le_mono_nonneg_r; lia. }
    nia.
  - destruct (timeStamp_faithful p (Z.pos mT) eT Hp ltac:(lia) ltac:(lia))
      as (m2 & e2 & R & B2 & E2 & Lo & _).
    rewrite R, SFltb_scaled by (try assumption; lia).
    apply Z.ltb_ge. apply Lo. rewrite HvT. nia.
Qed.

Lemma quotient_lt (millis T : Z) :
  (inject_Z millis / 1000 < inject_Z T)%Q <-> millis < 1000 * T.
Proof. unfold Qlt, Qdiv, Qmult, Qinv, inject_Z; cbn [Qnum Qden]. lia. Qed.

Lemma quotient_dec (millis T : Z) (A : Type) (a b : A) :
  (if Qlt_le_dec (inject_Z millis / 1000) (inject_Z T) then a else b)
  = (if millis <? 1000 * T then a else b).
Proof.
  destruct (Qlt_le_dec (inject_Z millis / 1000) (inject_Z T)) as [L|G];
    destruct (Z.ltb_spec millis (1000 * T)) as [H|H]; try reflexivity; exfalso.
  - apply quotient_lt in L. lia.
  - apply Qle_not_lt in G. apply G, quotient_lt. exact H.
Qed.

Lemma pad_items_millis (millis : Z) :
  0 <= millis < 2 ^ 32 ->
  pad_items (timeStamp_of millis) = padding (padding_width (inject_Z millis / 1000)).
Proof.
  intro Hms. unfold pad_items.
  rewrite !timeStamp_lt by tauto.
  change (padding_width (inject_Z millis / 1000))
    with (if Qlt_le_dec (inject_Z millis / 1000) (inject_Z 10) then 4%nat
          else if Qlt_le_dec (inject_Z millis / 1000) (inject_Z 100) then 3%nat
          else if Qlt_le_dec (inject_Z millis / 1000) (inject_Z 1000) then 2%nat
          else if Qlt_le_dec (inject_Z millis / 1000) (inject_Z 10000) then 1%nat
          else 0%nat).
  rewrite !quotient_dec.
  repeat match goal with
         | |- context [?a <? ?b] => destruct (Z.ltb_spec a b)
         end; reflexivity.
Qed.

(** C4: for every value of millis(), with t = millis / 1000, the timestamp
    is t printed with two decimals, preceded by exactly 4 spaces if t < 10,
    by 3 if 10 <= t < 100, by 2 if 100 <= t < 1000, by 1 if
    1000 <= t < 10000 and by none if t >= 10000, and followed by a colon;
    7.00, 42.50, 234.10, 5234.99 and 12345.00 seconds render as
    "    7.00:", "   42.50:", "  234.10:", " 5234.99:" and "12345.00:". *)
Theorem C4_timestamp_padding :
  (forall (millis : Z) (s : State),
      0 <= millis < 2 ^ 32 ->
      tx (printTimestamp millis s)
      = tx s ++ padding (padding_width (inject_Z millis / 1000))
             ++ [Num (timeStamp_of millis); Lit ":"]) /\
  stream (tx (printTimestamp 7000 initial)) = "    7.00:"%string /\
  stream (tx (printTimestamp 42500 initial)) = "   42.50:"%string /\
  stream (tx (printTimestamp 234100 initial)) = "  234.10:"%string /\
  stream (tx (printTimestamp 5234990 initial)) = " 5234.99:"%string /\
  stream (tx (printTimestamp 12345000 initial)) = "12345.00:"%string.
Proof.
  split; [|repeat split].
  intros millis s Hms. unfold printTimestamp.
  rewrite printTimestamp_at_emits; simpl.
  unfold timestamp_items. now rewrite pad_items_millis.
Qed.

Lemma C4_timestamp_padding_witness :
  tx (printTimestamp 42500 initial)
  = [Lit "   "; Num (timeStamp_of 42500); Lit ":"].
Proof.
  destruct C4_timestamp_padding as (H & _).
  apply (H 42500 initial). split; [discriminate | reflexivity].
Defined.

(** ** C5 and C10: the Keybus connection notice *)

(** C5: when the check at the top of [loop()] finds a transition reported
    with the Keybus now connected, the flag is cleared first and then exactly
    one "Keybus connected" line is printed; as long as the decoder reports no
    further transition, no later call prints a connection notice again. *)
Theorem C5_keybus_connected_once (c : Call) (cs : list Call) (s : State) :
  let s1 := snd (dsc_loop (firstPoll c) s) in
  keybusChanged s1 = true ->
  keybusConnected s1 = true ->
  session_changed c = false ->
  Forall call_quiet cs ->
  check_keybus s1 = Serial_println "Keybus connected" (set_keybusChanged false s1) /\
  keybusChanged (set_keybusChanged false s1) = false /\
  count_line "Keybus connected" (serial (loop c s))
    = S (count_line "Keybus connected" (serial s)) /\
  keybus_lines (serial (loop c s)) = S (keybus_lines (serial s)) /\
  keybus_lines (serial (run (c :: cs) s)) = S (keybus_lines (serial s)) /\
  keybusChanged (run (c :: cs) s) = false.
Proof.
  intros s1 Hch Hco Hse Hcs. subst s1. simpl in Hch, Hco.
  split; [|split; [reflexivity|]].
  - unfold check_keybus. simpl. now rewrite Hch, Hco.
  - assert (Hl : keybus_lines (serial (loop c s)) = S (keybus_lines (serial s)))
      by (rewrite loop_keybus_lines, Hch; lia).
    split; [|split; [exact Hl|]].
    + rewrite loop_connected_lines, Hch, Hco; simpl. lia.
    + rewrite run_cons.
      destruct (run_quiet cs (loop c s)) as [H1 H2]; [|assumption|].
      * now rewrite loop_keybusChanged.
      * now rewrite H1, Hl.
Qed.

Lemma C5_keybus_connected_once_witness :
  keybus_lines
    (serial (run [mkCall (mkPoll true true true false) None; mkCall idle_poll None] initial))
  = 1%nat.
Proof.
  apply (C5_keybus_connected_once (mkCall (mkPoll true true true false) None)
           [mkCall idle_poll None] initial).
  - reflexivity.
  - reflexivity.
  - reflexivity.
  - repeat constructor.
Defined.

(** C10: while the session lasts the Keybus check is never reached: a
    transition the decoder reports during the session prints no notice and
    leaves [keybusChanged] set, through the end of the session; the next call
    of [loop()] then prints one notice, for the Keybus state it finds, and
    clears the flag. *)
Theorem C10_transition_during_session
    (c c' : Call) (es : list Pass) (s : State) :
  client c = Some es ->
  changed_in es = true ->
  let s0 := session_start c s in
  keybusChanged s0 = false /\
  (forall before after : list Pass,
      es = before ++ after ->
      keybus_lines (serial (passes before s0)) = keybus_lines (serial s0) /\
      keybusChanged (passes before s0) = changed_in before /\
      (changed_in before = true ->
       forall more : list Pass, keybusChanged (passes (before ++ more) s0) = true)) /\
  keybus_lines (serial (loop c s)) = keybus_lines (serial s0) /\
  keybusChanged (loop c s) = true /\
  serial (check_keybus (snd (dsc_loop (firstPoll c') (loop c s))))
    = serial (loop c s)
        ++ [if p_connected (firstPoll c')
            then "Keybus connected" else "Keybus disconnected"]%string /\
  keybus_lines (serial (loop c' (loop c s))) = S (keybus_lines (serial (loop c s))) /\
  keybusChanged (loop c' (loop c s)) = session_changed c'.
Proof.
  intros Hc Hes s0.
  assert (H0 : keybusChanged s0 = false)
    by (subst s0; unfold session_start; now rewrite check_keybus_spec).
  assert (Hk : keybusChanged (loop c s) = true)
    by (rewrite loop_keybusChanged; unfold session_changed; now rewrite Hc).
  split; [exact H0|]. split; [|split; [|split; [exact Hk|split; [|split]]]].
  - intros before after Heq. rewrite passes_keybus_lines, passes_keybusChanged, H0.
    repeat split. intros Hb more.
    rewrite passes_keybusChanged, H0. unfold changed_in in *.
    now rewrite existsb_app, Hb.
  - rewrite (loop_session c es s Hc). fold s0. unfold end_session; simpl.
    rewrite keybus_lines_app, passes_keybus_lines.
    change (keybus_lines ["Client disconnected"%string]) with 0%nat.
    now rewrite Nat.add_0_r.
  - rewrite check_keybus_spec; simpl. unfold keybus_notice; simpl.
    now rewrite Hk.
  - rewrite loop_keybus_lines, Hk; simpl. lia.
  - apply loop_keybusChanged.
Qed.

Lemma C10_transition_during_session_witness :
  keybusChanged
    (loop (mkCall idle_poll
             (Some [mkPass [] (mkPoll true true true false) false "" "" "" "" "" 0 0]))
       initial) = true.
Proof.
  apply (C10_transition_during_session
           (mkCall idle_poll
              (Some [mkPass [] (mkPoll true true true false) false "" "" "" "" "" 0 0]))
           (mkCall idle_poll None)
           [mkPass [] (mkPoll true true true false) false "" "" "" "" "" 0 0]
           initial).
  - reflexivity.
  - reflexivity.
Defined.

(** ** C6: line termination *)

Lemma ends_with_app (suffix text : string) :
  ends_with suffix (text ++ suffix) = true.
Proof.
  induction text as [|ch text IH].
  - change (EmptyString ++ suffix)%string with suffix.
    destruct suffix; [reflexivity|]. cbn [ends_with].
    now rewrite String.eqb_refl.
  - change (String ch text ++ suffix)%string with (String ch (text ++ suffix)).
    cbn [ends_with]. rewrite IH. apply orb_true_r.
Qed.

Lemma stream_app (a b : list TxItem) :
  stream (a ++ b) = (stream a ++ stream b)%string.
Proof.
  induction a as [|i a IH]; simpl; [reflexivity|].
  rewrite IH. clear IH. induction (render i); simpl; [reflexivity|].
  now f_equal.
Qed.

Lemma stream_terminated (items : list TxItem) :
  ends_with CRLF (stream (items ++ [Lit CRLF])) = true.
Proof.
  rewrite stream_app. change (stream [Lit CRLF]) with CRLF. apply ends_with_app.
Qed.

(** The greeting, the panel line and the module line end in CR LF. *)
Lemma lines_terminated (e : Pass) :
  ends_with CRLF greeting = true /\
  ends_with CRLF (stream (panel_line e)) = true /\
  ends_with CRLF (stream (module_line e)) = true.
Proof.
  split; [reflexivity|]. split.
  - replace (panel_line e)
      with ((timestamp_items (timeStamp_of (panelMillis e))
               ++ [Lit " "; Dsc (panelBinary e); Lit " ["; Dsc (panelCommand e);
                   Lit "] "; Dsc (panelMessage e)]) ++ [Lit CRLF])
      by (unfold panel_line; now rewrite <- app_assoc).
    apply stream_terminated.
  - replace (module_line e)
      with ((timestamp_items (timeStamp_of (moduleMillis e))
               ++ [Lit " "; Dsc (moduleBinary e); Lit " "; Dsc (moduleMessage e)])
              ++ [Lit CRLF])
      by (unfold module_line; now rewrite <- app_assoc).
    apply stream_terminated.
Qed.

(** C6 fails on the overflow notice: it is written with [print] and without
    a line terminator, so the stream does not end in CR LF after it and the
    next line's timestamp follows on the same line. *)
Lemma C6_overflow_notice_unterminated :
  ends_with CRLF overflow_notice = false /\
  stream (tx (loop (mkCall idle_poll (Some [idle_pass []; overflow_pass])) initial))
  = ("Connected to DSC Keybus Reader" ++ CRLF ++ "Keybus buffer overflow")%string /\
  ends_with CRLF
    (stream (tx (loop (mkCall idle_poll (Some [idle_pass []; overflow_pass])) initial)))
  = false /\
  stream (tx (loop (mkCall idle_poll (Some [idle_pass []; overflow_panel_pass])) initial))
  = ("Connected to DSC Keybus Reader" ++ CRLF
       ++ "Keybus buffer overflow    7.00: 00000101 0 10000001 [0x05] Partition 1: Ready"
       ++ CRLF)%string.
Proof. repeat split. Qed.

(** ** C7 and C8: polling and the module line *)

(** C7: the decoder is polled in every iteration, with or without a client:
    once, unconditionally, by the first statement of [loop()], and once in
    every pass of the session loop, so a call of [loop()] with a session of
    [n] passes polls [1 + n] times. *)
Theorem C7_poll_every_iteration :
  (forall (c : Call) (s : State),
      polls (snd (dsc_loop (firstPoll c) s)) = S (polls s)) /\
  (forall (c : Call) (s : State),
      client c = None -> polls (loop c s) = S (polls s)) /\
  (forall (e : Pass) (s : State), polls (pass e s) = S (polls s)) /\
  (forall (c : Call) (es : list Pass) (s : State),
      client c = Some es -> polls (loop c s) = (S (polls s) + List.length es)%nat).
Proof.
  repeat split.
  - intros c s H. rewrite loop_polls, H. lia.
  - intros e s. now rewrite pass_spec.
  - intros c es s H. now rewrite loop_polls, H.
Qed.

Lemma C7_poll_every_iteration_witness :
  polls (loop (mkCall idle_poll None) initial) = 1%nat /\
  polls (loop (mkCall idle_poll (Some [idle_pass []; idle_pass []])) initial) = 3%nat.
Proof.
  destruct C7_poll_every_iteration as (_ & H1 & _ & H2).
  split; [apply H1 | apply (H2 _ [idle_pass []; idle_pass []])]; reflexivity.
Defined.

(** C8: in a pass, [printModule] runs exactly when module data is available
    and either the poll reported work done (whatever the Keybus state) or it
    did not and the Keybus is connected; the module line then comes last, and
    otherwise the pass prints no module line. *)
Theorem C8_module_line (e : Pass) (s : State) :
  exists s0 : State,
    tx s0 = tx s ++ greet_items s ++ panel_items e s /\
    pass e s
    = (if moduleData e && (p_ret (poll e) || p_connected (poll e))
       then printModule e s0 else s0) /\
    tx (pass e s)
    = tx s0
        ++ (if moduleData e && (p_ret (poll e) || p_connected (poll e))
            then module_line e else []) /\
    module_line e <> [].
Proof.
  exists (mkState (keybusChanged s || p_changed (poll e)) (p_connected (poll e))
            (if p_ret (poll e) then false else overflow_seen e s)
            (written s ++ fst (filter_step (rx s ++ arrived e)))
            (S (polls s)) (clientOpen s)
            (snd (filter_step (rx s ++ arrived e)))
            (tx s ++ greet_items s ++ panel_items e s)
            (serial s ++ greet_lines s) false).
  split; [reflexivity|].
  rewrite pass_spec, printModule_emits. unfold keybus_items, module_due.
  fold (module_due e).
  assert (Hne : module_line e <> []).
  { unfold module_line. intro H. apply app_eq_nil in H. destruct H; discriminate. }
  destruct (module_due e); unfold emits; simpl;
    rewrite <- ?app_assoc, ?app_nil_r; repeat split; assumption.
Qed.

(** ** C9: greeting and teardown *)

Lemma panel_line_greeting (e : Pass) : count_lit greeting (panel_line e) = 0%nat.
Proof.
  unfold panel_line. rewrite count_lit_app.
  rewrite timestamp_items_lit by reflexivity. reflexivity.
Qed.

Lemma module_line_greeting (e : Pass) : count_lit greeting (module_line e) = 0%nat.
Proof.
  unfold module_line. rewrite count_lit_app.
  rewrite timestamp_items_lit by reflexivity. reflexivity.
Qed.

Lemma keybus_items_greeting (e : Pass) (s : State) :
  count_lit greeting (keybus_items e s) = 0%nat.
Proof.
  unfold keybus_items, panel_items. rewrite count_lit_app.
  replace (count_lit greeting (if module_due e then module_line e else [])) with 0%nat
    by (destruct (module_due e); [now rewrite module_line_greeting | reflexivity]).
  destruct (p_ret (poll e)); [|reflexivity].
  rewrite count_lit_app.
  replace (count_lit greeting (if p_connected (poll e) then panel_line e else [])) with 0%nat
    by (destruct (p_connected (poll e)); [now rewrite panel_line_greeting | reflexivity]).
  destruct (overflow_seen e s); reflexivity.
Qed.

Lemma session_items_no_greeting (es : list Pass) (s : State) :
  newClient s = false -> count_lit greeting (session_items es s) = 0%nat.
Proof.
  revert s; induction es as [|e es IH]; intros s H; [reflexivity|].
  simpl. rewrite !count_lit_app, keybus_items_greeting, IH.
  - unfold greet_items. now rewrite H.
  - now rewrite pass_spec.
Qed.

Lemma session_items_greeting (es : list Pass) (s : State) :
  (count_lit greeting (session_items es s) <= 1)%nat.
Proof.
  destruct es as [|e es]; simpl; [unfold count_lit; simpl; lia|].
  rewrite !count_lit_app, keybus_items_greeting, session_items_no_greeting
    by now rewrite pass_spec.
  unfold greet_items. destruct (newClient s); cbn; lia.
Qed.

(** C9: when [connected()] answers false the session is torn down (the
    socket is closed) and [newClient] is set again, so the next session that
    is accepted, whenever that is, is greeted first thing and exactly once;
    no session is greeted twice. *)
Theorem C9_teardown_and_greeting
    (c1 c2 : Call) (es1 es2 : list Pass) (cs : list Call) (s : State) :
  client c1 = Some es1 ->
  client c2 = Some es2 ->
  es2 <> [] ->
  let s1 := loop c1 s in
  let s2 := run cs s1 in
  s1 = end_session (passes es1 (session_start c1 s)) /\
  clientOpen s1 = false /\
  newClient s1 = true /\
  newClient (session_start c2 s2) = true /\
  (exists rest : list TxItem,
      tx (loop c2 s2) = tx s2 ++ Lit greeting :: rest /\
      count_lit greeting rest = 0%nat) /\
  (count_lit greeting (session_items es1 (session_start c1 s)) <= 1)%nat.
Proof.
  intros H1 H2 Hne s1 s2.
  assert (Hn1 : newClient s1 = true) by (subst s1; now rewrite loop_newClient, H1).
  assert (Hn2 : newClient s2 = true) by (subst s2; now apply run_newClient).
  assert (Hn3 : newClient (session_start c2 s2) = true)
    by (unfold session_start; rewrite check_keybus_spec; exact Hn2).
  repeat split; try assumption.
  - subst s1. now apply loop_session.
  - subst s1. apply loop_clientOpen.
  - destruct es2 as [|e es2]; [contradiction|].
    exists (keybus_items e (session_start c2 s2)
              ++ session_items es2 (pass e (session_start c2 s2))).
    split.
    + rewrite loop_tx, H2; simpl. unfold greet_items. now rewrite Hn3.
    + rewrite count_lit_app, keybus_items_greeting, session_items_no_greeting;
        [reflexivity | now rewrite pass_spec].
  - apply session_items_greeting.
Qed.

Lemma C9_teardown_and_greeting_witness :
  exists rest : list TxItem,
    tx (loop (mkCall idle_poll (Some [idle_pass []]))
          (run [mkCall idle_poll None]
             (loop (mkCall idle_poll (Some [idle_pass []; idle_pass []])) initial)))
    = tx (run [mkCall idle_poll None]
            (loop (mkCall idle_poll (Some [idle_pass []; idle_pass []])) initial))
        ++ Lit greeting :: rest /\
    count_lit greeting rest = 0%nat.
Proof.
  apply (C9_teardown_and_greeting
           (mkCall idle_poll (Some [idle_pass []; idle_pass []]))
           (mkCall idle_poll (Some [idle_pass []]))
           [idle_pass []; idle_pass []] [idle_pass []]
           [mkCall idle_poll None] initial).
  - reflexivity.
  - reflexivity.
  - discriminate.
Defined.

(** * Further properties of the sketch *)

(** ** The telnet filter and the session *)

Lemma xffs_app (a b : list byte) : xffs (a ++ b) = (xffs a + xffs b)%nat.
Proof. unfold xffs. now rewrite filter_app, length_app. Qed.

Lemma xffs_skipn (n : nat) (l : list byte) : (xffs (skipn n l) <= xffs l)%nat.
Proof.
  revert l; induction n as [|n IH]; intros [|b l]; simpl; try lia.
  specialize (IH l). unfold xffs in *. simpl. destruct (Byte.eqb xff b); simpl; lia.
Qed.

Lemma xffs_none (l : list byte) : ~ In xff l -> xffs l = 0%nat.
Proof.
  induction l as [|b l IH]; intro H; [reflexivity|].
  unfold xffs in *. simpl.
  destruct (Byte.eqb xff b) eqn:E.
  - exfalso. apply H. left. symmetry. now apply Byte.byte_dec_bl.
  - apply IH. intro Hin. apply H. now right.
Qed.

Lemma filter_step_keys (avail : list byte) : ~ In xff (fst (filter_step avail)).
Proof.
  destruct avail as [|b rest]; simpl; [tauto|].
  destruct (Byte.eqb b xff) eqn:E; simpl; [tauto|].
  intros [H|[]]. subst b. discriminate E.
Qed.

Lemma filter_step_account (avail : list byte) :
  (List.length avail + 3 * xffs (snd (filter_step avail))
   <= List.length (fst (filter_step avail)) + List.length (snd (filter_step avail))
      + 3 * xffs avail)%nat.
Proof.
  destruct avail as [|b rest]; [simpl; lia|].
  unfold filter_step. destruct (Byte.eqb b xff) eqn:E.
  - apply Byte.byte_dec_bl in E. subst b.
    cbn [fst snd]. pose proof (xffs_skipn 2 rest). pose proof (length_skipn 2 rest).
    change (xffs (xff :: rest)) with (S (xffs rest)).
    cbn [List.length]. lia.
  - cbn [fst snd List.length].
    assert (xffs (b :: rest) = xffs rest).
    { unfold xffs. simpl. destruct (Byte.eqb xff b) eqn:E'; [|reflexivity].
      apply Byte.byte_dec_bl in E'. subst b. discriminate E. }
    lia.
Qed.

Lemma filter_step_whole (avail : list byte) :
  ~ In xff avail -> fst (filter_step avail) ++ snd (filter_step avail) = avail.
Proof.
  destruct avail as [|b rest]; [reflexivity|]. intro H. unfold filter_step.
  destruct (Byte.eqb b xff) eqn:E; [|reflexivity].
  exfalso. apply H. left. symmetry. now apply Byte.byte_dec_bl.
Qed.

(** The sketch never hands the byte 0xFF to the decoder: whatever arrives and
    whenever, no key forwarded during a session is the IAC. *)
Theorem session_never_forwards_IAC (es : list Pass) (s : State) :
  exists keys : list byte,
    written (passes es s) = written s ++ keys /\ ~ In xff keys.
Proof.
  revert s; induction es as [|e es IH]; intro s.
  - exists []. split; [now rewrite app_nil_r | tauto].
  - rewrite passes_cons. destruct (IH (pass e s)) as (keys & Hw & Hk).
    exists (fst (filter_step (rx s ++ arrived e)) ++ keys). split.
    + now rewrite Hw, pass_written, app_assoc.
    + intro Hin. apply in_app_or in Hin. destruct Hin as [H|H]; [|tauto].
      exact (filter_step_keys _ H).
Qed.

(** Input without any 0xFF is never lost, whatever its timing: at any point
    of the session the keys forwarded so far followed by the bytes still in
    the socket are exactly the bytes received, in order. *)
Theorem plain_input_is_not_lost (es : list Pass) (s : State) :
  ~ In xff (rx s ++ arrivals es) ->
  exists keys : list byte,
    written (passes es s) = written s ++ keys /\
    keys ++ rx (passes es s) = rx s ++ arrivals es.
Proof.
  revert s; induction es as [|e es IH]; intros s H.
  - exists []. unfold arrivals; simpl. now rewrite !app_nil_r.
  - unfold arrivals in *; simpl in *. rewrite app_assoc in H.
    assert (H1 : ~ In xff (rx s ++ arrived e))
      by (intro Hin; apply H, in_or_app; now left).
    assert (H2 : ~ In xff (rx (pass e s) ++ List.concat (map arrived es))).
    { intro Hin. apply in_app_or in Hin. destruct Hin as [Hin|Hin].
      - apply H1. rewrite <- (filter_step_whole _ H1). apply in_or_app. right.
        now rewrite <- pass_rx.
      - apply H, in_or_app. now right. }
    destruct (IH (pass e s) H2) as (keys & Hw & Hk).
    exists (fst (filter_step (rx s ++ arrived e)) ++ keys). split.
    + change (passes (e :: es) s) with (passes es (pass e s)).
      now rewrite Hw, pass_written, app_assoc.
    + change (passes (e :: es) s) with (passes es (pass e s)).
      rewrite <- app_assoc, Hk, pass_rx, app_assoc, (filter_step_whole _ H1).
      now rewrite <- app_assoc.
Qed.

Lemma plain_input_is_not_lost_witness :
  exists keys : list byte,
    written (passes [idle_pass ["1"%byte; "2"%byte]; idle_pass ["3"%byte]] initial)
    = written initial ++ keys /\
    keys ++ rx (passes [idle_pass ["1"%byte; "2"%byte]; idle_pass ["3"%byte]] initial)
    = rx initial ++ arrivals [idle_pass ["1"%byte; "2"%byte]; idle_pass ["3"%byte]].
Proof.
  apply (plain_input_is_not_lost
           [idle_pass ["1"%byte; "2"%byte]; idle_pass ["3"%byte]] initial).
  simpl. intros [H|[H|[H|H]]]; [discriminate H | discriminate H | discriminate H | exact H].
Defined.

(** The filter drops at most three bytes for every 0xFF it consumes: the
    bytes received exceed the keys forwarded plus the bytes still in the
    socket by at most three times the number of 0xFF bytes consumed. *)
Theorem session_loss_bound (es : list Pass) (s : State) :
  exists keys : list byte,
    written (passes es s) = written s ++ keys /\
    (List.length (rx s ++ arrivals es) + 3 * xffs (rx (passes es s))
     <= List.length keys + List.length (rx (passes es s))
        + 3 * xffs (rx s ++ arrivals es))%nat.
Proof.
  revert s; induction es as [|e es IH]; intro s.
  - exists []. unfold arrivals; simpl. rewrite !app_nil_r. split; [reflexivity|lia].
  - destruct (IH (pass e s)) as (keys & Hw & Hk).
    exists (fst (filter_step (rx s ++ arrived e)) ++ keys).
    change (passes (e :: es) s) with (passes es (pass e s)). split.
    + now rewrite Hw, pass_written, app_assoc.
    + pose proof (filter_step_account (rx s ++ arrived e)) as Hs.
      rewrite <- pass_rx in Hs.
      unfold arrivals in *; simpl. rewrite (app_assoc (rx s)).
      rewrite !length_app, !xffs_app in *. lia.
Qed.

(** Keystrokes are injected one at a time: a pass forwards at most one key
    and takes at least one and at most three bytes from a non-empty socket,
    so a session of n passes forwards at most n keys. *)
Theorem one_key_per_pass :
  (forall (e : Pass) (s : State),
      (List.length (written (pass e s)) <= List.length (written s) + 1)%nat /\
      (List.length (rx s ++ arrived e) - 3 <= List.length (rx (pass e s)))%nat /\
      (List.length (rx (pass e s)) <= List.length (rx s ++ arrived e) - 1)%nat) /\
  (forall (es : list Pass) (s : State),
      (List.length (written (passes es s)) <= List.length (written s) + List.length es)%nat).
Proof.
  assert (H1 : forall e s,
             (List.length (written (pass e s)) <= List.length (written s) + 1)%nat).
  { intros e s. rewrite pass_written, length_app.
    destruct (rx s ++ arrived e) as [|b rest]; simpl; [lia|].
    destruct (Byte.eqb b xff); simpl; lia. }
  split.
  - intros e s. split; [apply H1|]. rewrite pass_rx.
    destruct (rx s ++ arrived e) as [|b rest]; [simpl; lia|].
    unfold filter_step. destruct (Byte.eqb b xff); cbn [snd List.length].
    + rewrite length_skipn. lia.
    + lia.
  - intros es. induction es as [|e es IH]; intro s; [simpl; lia|].
    rewrite passes_cons. specialize (IH (pass e s)). specialize (H1 e s).
    simpl. lia.
Qed.

Lemma passes_disconnected_lines (es : list Pass) (s : State) :
  count_line "Keybus disconnected" (serial (passes es s))
  = count_line "Keybus disconnected" (serial s).
Proof. apply passes_keybusConnected_lines. reflexivity. Qed.

(** The Keybus notice of a call names the state reported by the poll of that
    call: with the flag set after the first poll the check prints "Keybus
    connected" or "Keybus disconnected" according to [keybusConnected],
    exactly one line, and clears the flag; with the flag clear it prints
    nothing. *)
Theorem keybus_notice_names_state (c : Call) (s : State) :
  let flagged := keybusChanged s || p_changed (firstPoll c) in
  let up := p_connected (firstPoll c) in
  serial (check_keybus (snd (dsc_loop (firstPoll c) s)))
  = serial s
      ++ (if flagged
          then [if up then "Keybus connected" else "Keybus disconnected"]%string
          else []) /\
  keybusChanged (check_keybus (snd (dsc_loop (firstPoll c) s))) = false /\
  count_line "Keybus connected" (serial (loop c s))
  = (count_line "Keybus connected" (serial s)
     + if flagged && up then 1 else 0)%nat /\
  count_line "Keybus disconnected" (serial (loop c s))
  = (count_line "Keybus disconnected" (serial s)
     + if flagged && negb up then 1 else 0)%nat.
Proof.
  intros flagged up. subst flagged up.
  split; [|split; [|split]].
  - now rewrite check_keybus_spec.
  - now rewrite check_keybus_spec.
  - apply loop_connected_lines.
  - unfold loop. rewrite check_keybus_spec.
    destruct (client c) as [es|]; simpl.
    + rewrite count_line_app, passes_disconnected_lines; simpl.
      rewrite count_line_app. unfold keybus_notice; simpl.
      change (count_line "Keybus disconnected" ["Client disconnected"%string]) with 0%nat.
      destruct (keybusChanged s || p_changed (firstPoll c));
        [destruct (p_connected (firstPoll c))|]; cbn; lia.
    + rewrite count_line_app. unfold keybus_notice; simpl.
      destruct (keybusChanged s || p_changed (firstPoll c));
        [destruct (p_connected (firstPoll c))|]; cbn; lia.
Qed.

(** While the Keybus is disconnected no panel line is printed: a pass whose
    poll reports the Keybus disconnected prints, after the greeting, nothing
    at all if the poll returned false, and only the overflow notice and the
    module line, if due, when it returned true. *)
Theorem disconnected_keybus_prints_no_panel (e : Pass) (s : State) :
  p_connected (poll e) = false ->
  tx (pass e s)
  = tx s ++ greet_items s
      ++ (if p_ret (poll e)
          then (if bufferOverflow s || p_overflow (poll e)
                then [Lit overflow_notice] else [])
                 ++ (if moduleData e then module_line e else [])
          else []).
Proof.
  intro H. rewrite pass_spec; simpl.
  unfold keybus_items, panel_items, module_due, overflow_seen. rewrite H.
  destruct (p_ret (poll e)), (moduleData e); simpl;
    rewrite ?app_nil_r; reflexivity.
Qed.

Lemma disconnected_keybus_prints_no_panel_witness :
  tx (pass overflow_pass initial)
  = tx initial ++ greet_items initial ++ [Lit overflow_notice] ++ [].
Proof.
  apply (disconnected_keybus_prints_no_panel overflow_pass initial). reflexivity.
Defined.

Lemma string_app_assoc (a b c : string) : ((a ++ b) ++ c = a ++ (b ++ c))%string.
Proof. induction a as [|ch a IH]; simpl; [reflexivity | now rewrite IH]. Qed.

Lemma string_app_nil_r (a : string) : (a ++ "" = a)%string.
Proof. induction a as [|ch a IH]; simpl; [reflexivity | now rewrite IH]. Qed.

Lemma stream_padding (n : nat) : stream (padding n) = spaces n.
Proof. destruct n; [reflexivity|]. unfold padding, stream; cbn [fold_right render]. apply string_app_nil_r. Qed.

Lemma stream_timestamp (millis : Z) (tail : string) :
  0 <= millis < 2 ^ 32 ->
  (stream (timestamp_items (timeStamp_of millis)) ++ tail
   = spaces (padding_width (inject_Z millis / 1000))
       ++ printFloat (float_to_double (timeStamp_of millis)) 2 ++ ":" ++ tail)%string.
Proof.
  intro H. unfold timestamp_items. rewrite pad_items_millis by exact H.
  rewrite stream_app, stream_padding, string_app_assoc.
  f_equal. unfold stream; cbn [fold_right render].
  rewrite string_app_assoc. reflexivity.
Qed.

(** The text of the event lines: a panel line is the padded timestamp, a
    colon, a space, the panel data, the command in brackets, the message
    and CR LF; a module line is the padded timestamp, a colon, a space, the
    module data, a space, the message and CR LF. *)
Theorem event_line_format (e : Pass) (s : State) :
  (keybusConnected s = true ->
   0 <= panelMillis e < 2 ^ 32 ->
   stream (tx (print_panel e s))
   = (stream (tx s)
        ++ spaces (padding_width (inject_Z (panelMillis e) / 1000))
        ++ printFloat (float_to_double (timeStamp_of (panelMillis e))) 2
        ++ ": " ++ panelBinary e ++ " [" ++ panelCommand e ++ "] "
        ++ panelMessage e ++ CRLF)%string) /\
  (0 <= moduleMillis e < 2 ^ 32 ->
   stream (tx (printModule e s))
   = (stream (tx s)
        ++ spaces (padding_width (inject_Z (moduleMillis e) / 1000))
        ++ printFloat (float_to_double (timeStamp_of (moduleMillis e))) 2
        ++ ": " ++ moduleBinary e ++ " " ++ moduleMessage e ++ CRLF)%string).
Proof.
  split.
  - intros Hc Hm. rewrite print_panel_emits, Hc. unfold emits; cbn [tx].
    unfold panel_line. rewrite !stream_app, (stream_timestamp _ _ Hm).
    unfold stream at 2; cbn [fold_right render].
    rewrite !string_app_nil_r. reflexivity.
  - intros Hm. rewrite printModule_emits. unfold emits; cbn [tx].
    unfold module_line. rewrite !stream_app, (stream_timestamp _ _ Hm).
    unfold stream at 2; cbn [fold_right render].
    rewrite !string_app_nil_r. reflexivity.
Qed.

Lemma event_line_format_witness :
  stream (tx (printModule overflow_panel_pass initial))
  = (stream (tx initial)
       ++ spaces (padding_width (inject_Z (moduleMillis overflow_panel_pass) / 1000))
       ++ printFloat (float_to_double (timeStamp_of (moduleMillis overflow_panel_pass))) 2
       ++ ": " ++ moduleBinary overflow_panel_pass ++ " "
       ++ moduleMessage overflow_panel_pass ++ CRLF)%string.
Proof.
  destruct (event_line_format overflow_panel_pass initial) as [_ H].
  apply H. split; [discriminate | reflexivity].
Defined.

Lemma passes_serial (es : list Pass) (s : State) :
  serial (passes es s)
  = serial s ++ (if newClient s
                 then match es with [] => [] | _ :: _ => ["Client connected"%string] end
                 else []).
Proof.
  destruct es as [|e es].
  - simpl. destruct (newClient s); now rewrite app_nil_r.
  - rewrite passes_cons.
    assert (H : forall es s, newClient s = false -> serial (passes es s) = serial s).
    { clear. induction es as [|e es IH]; intros s H; [reflexivity|].
      rewrite passes_cons, IH by now rewrite pass_spec.
      rewrite pass_spec; simpl. unfold greet_lines. rewrite H. apply app_nil_r. }
    rewrite H by now rewrite pass_spec.
    rewrite pass_spec; simpl. unfold greet_lines. now destruct (newClient s).
Qed.

Lemma loop_serial (c : Call) (s : State) :
  serial (loop c s)
  = serial s ++ keybus_notice (snd (dsc_loop (firstPoll c) s))
      ++ match client c with
         | Some es =>
             (if newClient s
              then match es with [] => [] | _ :: _ => ["Client connected"%string] end
              else []) ++ ["Client disconnected"%string]
         | None => []
         end.
Proof.
  unfold loop. rewrite check_keybus_spec.
  destruct (client c) as [es|]; simpl.
  - rewrite passes_serial; simpl. now rewrite <- !app_assoc.
  - now rewrite app_nil_r.
Qed.

Lemma keybus_notice_client_lines (line : string) (s : State) :
  String.eqb line "Keybus connected" = false ->
  String.eqb line "Keybus disconnected" = false ->
  count_line line (keybus_notice s) = 0%nat.
Proof.
  intros H1 H2. unfold keybus_notice, count_line.
  destruct (keybusChanged s); [|reflexivity].
  destruct (keybusConnected s); cbn [filter]; rewrite ?H1, ?H2; reflexivity.
Qed.

Lemma session_items_greeted (es : list Pass) (s : State) :
  newClient s = true ->
  count_lit greeting (session_items es s)
  = match es with [] => 0 | _ :: _ => 1 end%nat.
Proof.
  intro H. destruct es as [|e es]; [reflexivity|]. simpl.
  rewrite !count_lit_app, keybus_items_greeting, session_items_no_greeting
    by now rewrite pass_spec.
  unfold greet_items. rewrite H. reflexivity.
Qed.

(** The session log: over any run that starts with [newClient] set, every
    accepted client adds one "Client disconnected" line, and every session
    that runs at least one pass adds one "Client connected" line and one
    greeting, so greetings and "Client connected" lines go together. *)
Theorem session_log (cs : list Call) (s : State) :
  newClient s = true ->
  count_line "Client disconnected" (serial (run cs s))
  = (count_line "Client disconnected" (serial s) + sessions cs)%nat /\
  count_line "Client connected" (serial (run cs s))
  = (count_line "Client connected" (serial s) + live_sessions cs)%nat /\
  count_lit greeting (tx (run cs s))
  = (count_lit greeting (tx s) + live_sessions cs)%nat.
Proof.
  revert s; induction cs as [|c cs IH]; intros s H.
  - unfold sessions, live_sessions; simpl. repeat split; lia.
  - rewrite run_cons.
    assert (H' : newClient (loop c s) = true).
    { rewrite loop_newClient, H. now destruct (client c). }
    destruct (IH _ H') as (I1 & I2 & I3). rewrite I1, I2, I3.
    rewrite loop_serial, loop_tx, !count_line_app, count_lit_app, H.
    rewrite !keybus_notice_client_lines by reflexivity.
    unfold sessions, live_sessions, has_client, has_pass; cbn [filter].
    assert (Hs : newClient (session_start c s) = true)
      by (unfold session_start; rewrite check_keybus_spec; exact H).
    destruct (client c) as [[|e es]|]; rewrite ?session_items_greeted by exact Hs;
      cbn; repeat split; lia.
Qed.

Lemma session_log_witness :
  count_line "Client disconnected"
    (serial (run [mkCall idle_poll (Some [idle_pass []]); mkCall idle_poll (Some [])] initial))
  = 2%nat.
Proof.
  apply (session_log [mkCall idle_poll (Some [idle_pass []]); mkCall idle_poll (Some [])]
           initial).
  reflexivity.
Defined.

(** Over any run the decoder is polled once per call of [loop()] and once
    per pass of every session, no more and no less. *)
Theorem run_polls (cs : list Call) (s : State) :
  polls (run cs s) = (polls s + List.length cs + total_passes cs)%nat.
Proof.
  revert s; induction cs as [|c cs IH]; intro s.
  - unfold total_passes; simpl. lia.
  - rewrite run_cons, IH, loop_polls. unfold total_passes, passes_of; simpl. lia.
Qed.

(** The padding is chosen before the value is rounded to two decimals: just
    below 10, 100, 1000 and 10000 seconds the number prints with one more
    digit behind the padding of the smaller range, so the field is ten
    characters wide instead of nine. *)
Theorem timestamp_rounds_past_padding (millis : Z) (s : State) :
  (9996 <= millis <= 9999 ->
   stream (tx (printTimestamp millis s)) = (stream (tx s) ++ "    10.00:")%string) /\
  (99995 <= millis <= 99999 ->
   stream (tx (printTimestamp millis s)) = (stream (tx s) ++ "   100.00:")%string) /\
  (999996 <= millis <= 999999 ->
   stream (tx (printTimestamp millis s)) = (stream (tx s) ++ "  1000.00:")%string) /\
  (9999995 <= millis <= 9999999 ->
   stream (tx (printTimestamp millis s)) = (stream (tx s) ++ " 10000.00:")%string).
Proof.
  unfold printTimestamp. rewrite printTimestamp_at_emits. unfold emits; cbn [tx].
  rewrite stream_app.
  repeat split; intro H; f_equal.
  - assert (C : millis = 9996 \/ millis = 9997 \/ millis = 9998 \/ millis = 9999) by lia.
    destruct C as [->|[->|[->| ->]]]; reflexivity.
  - assert (C : millis = 99995 \/ millis = 99996 \/ millis = 99997 \/ millis = 99998
                \/ millis = 99999) by lia.
    destruct C as [->|[->|[->|[->| ->]]]]; reflexivity.
  - assert (C : millis = 999996 \/ millis = 999997 \/ millis = 999998 \/ millis = 999999)
      by lia.
    destruct C as [->|[->|[->| ->]]]; reflexivity.
  - assert (C : millis = 9999995 \/ millis = 9999996 \/ millis = 9999997
                \/ millis = 9999998 \/ millis = 9999999) by lia.
    destruct C as [->|[->|[->|[->| ->]]]]; reflexivity.
Qed.

Lemma timestamp_rounds_past_padding_witness :
  stream (tx (printTimestamp 9997 initial)) = (stream (tx initial) ++ "    10.00:")%string.
Proof.
  destruct (timestamp_rounds_past_padding 9997 initial) as (H & _).
  apply H. lia.
Defined.

Lemma float_of_Z_pos (q : positive) (d : Z) :
  Z.pos (digits2_pos q) = d -> d <= 24 ->
  exists m : positive,
    F32.of_Z (Z.pos q) = S754_finite false m (d - 24) /\
    bounded F32.prec F32.emax m (d - 24) = true /\
    Z.pos m = Z.pos q * 2 ^ (24 - d).
Proof.
  intros Hd Hle.
  pose proof (digits2_pos_bounds q) as [L U]. rewrite Hd in L, U.
  assert (Hd0 : 0 < d) by (rewrite <- Hd; lia).
  unfold F32.of_Z, F32.normalize, binary_normalize, binary_round.
  unfold fexp at 1, emin, F32.prec, F32.emax. rewrite Hd.
  replace (Z.max (d + 0 - 24) (3 - 128 - 24)) with (d - 24) by lia.
  assert (Hm : exists m : positive,
             shl_align q 0 (d - 24) = (m, d - 24) /\
             Z.pos m = Z.pos q * 2 ^ (24 - d)).
  { unfold shl_align. destruct (d - 24 - 0) as [|k|k] eqn:E; try lia.
    - exists q. replace (d - 24) with 0 by lia. split; [reflexivity|].
      replace (24 - d) with 0 by lia. lia.
    - exists (Pos.iter xO q k). split; [reflexivity|].
      rewrite pos_iter_xO. f_equal. f_equal. lia. }
  destruct Hm as (m & Hs & Hm). rewrite Hs.
  assert (Hdm : Z.pos (digits2_pos m) = 24).
  { apply digits_unique. rewrite Hm. split.
    - replace (24 - 1) with ((d - 1) + (24 - d)) by lia.
      rewrite Z.pow_add_r by lia. apply Z.mul_le_mono_nonneg_r; [|exact L].
      apply Z.pow_nonneg; lia.
    - replace 24 with (d + (24 - d)) at 2 by lia.
      rewrite Z.pow_add_r by lia. apply Z.mul_lt_mono_pos_r; [|exact U].
      apply Z.pow_pos_nonneg; lia. }
  destruct (round_aux_faithful 24 128 ltac:(lia) m (d - 24) 0 loc_Exact)
    as (m' & e' & R & B & _ & _ & Ex); try lia.
  destruct Ex as [He' Hm']; [reflexivity | apply Z.mod_1_r |].
  rewrite Z.pow_0_r, Z.div_1_r in Hm'. injection Hm' as Hm'. subst m'.
  exists m. rewrite R. replace e' with (d - 24) in * by lia. auto.
Qed.

Lemma canonical_unique (m1 m2 : positive) (e1 e2 : Z) :
  bounded F32.prec F32.emax m1 e1 = true ->
  bounded F32.prec F32.emax m2 e2 = true ->
  Z.pos m1 * 2 ^ (e1 + 149) = Z.pos m2 * 2 ^ (e2 + 149) ->
  m1 = m2 /\ e1 = e2.
Proof.
  intros B1 B2 H. pose proof (compare_scaled m1 m2 e1 e2 B1 B2) as C.
  rewrite H, Z.compare_refl in C.
  destruct (Z.compare_spec e1 e2) as [E|E|E]; try discriminate C.
  split; [|exact E]. now apply Pos.compare_eq.
Qed.

(** Whole seconds are exact: for every whole number of seconds that a
    32-bit [millis()] can hold, [timeStamp] is that number, without any
    rounding error. *)
Theorem whole_seconds_are_exact (k : Z) :
  0 <= k -> 1000 * k < 2 ^ 32 ->
  timeStamp_of (1000 * k) = F32.of_Z k.
Proof.
  intros Hk Hlt. destruct k as [|q|q]; [reflexivity| |lia].
  destruct (1000 * Z.pos q) as [|p|p] eqn:Ep; try lia.
  set (d := Z.pos (digits2_pos q)).
  assert (Hd : d <= 24).
  { pose proof (digits2_pos_bounds q) as [L _]. fold d in L.
    destruct (Z.le_gt_cases d 24) as [G|G]; [exact G|]. exfalso.
    assert (2 ^ 24 <= 2 ^ (d - 1)) by (apply Z.pow_le_mono_r; lia).
    change (2 ^ 24) with 16777216 in *. change (2 ^ 32) with 4294967296 in *. lia. }
  assert (Hd0 : 0 < d) by (unfold d; lia).
  destruct (float_of_Z_pos q d eq_refl Hd) as (mc & Hc & Bc & Hmc).
  assert (Dc : Z.pos (digits2_pos mc) = 24).
  { destruct (bounded32 mc (d - 24) Bc) as (_ & D1 & D2).
    pose proof (digits2_pos_bounds q) as [L U]. fold d in L, U.
    apply digits_unique. rewrite Hmc. split.
    - replace (24 - 1) with ((d - 1) + (24 - d)) by lia.
      rewrite Z.pow_add_r by lia. apply Z.mul_le_mono_nonneg_r; [|exact L].
      apply Z.pow_nonneg; lia.
    - replace 24 with (d + (24 - d)) at 2 by lia.
      rewrite Z.pow_add_r by lia. apply Z.mul_lt_mono_pos_r; [|exact U].
      apply Z.pow_pos_nonneg; lia. }
  pose proof (digits2_pos_bounds mc) as Bm. rewrite Dc in Bm.
  change (2 ^ (24 - 1)) with (2 ^ 23) in Bm.
  destruct (timeStamp_faithful p (Z.pos mc) (d - 24) ltac:(lia) Bm ltac:(lia))
    as (m2 & e2 & R & B2 & E2 & Lo & Hi).
  assert (V : Z.pos mc * 2 ^ (d - 24 + 64) * 1000 = Z.pos p * 2 ^ 64).
  { rewrite <- Ep, Hmc.
    replace (2 ^ 64) with (2 ^ (24 - d) * 2 ^ (d - 24 + 64))
      by (rewrite <- Z.pow_add_r by lia; f_equal; lia).
    ring. }
  assert (Heq : Z.pos m2 * 2 ^ (e2 + 64) = Z.pos mc * 2 ^ (d - 24 + 64)).
  { apply Z.le_antisymm; [apply Hi | apply Lo]; lia. }
  destruct (canonical_unique m2 mc e2 (d - 24) B2 Bc) as [-> ->].
  - replace (e2 + 149) with (e2 + 64 + 85) by lia.
    replace (d - 24 + 149) with (d - 24 + 64 + 85) by lia.
    rewrite (Z.pow_add_r 2 (e2 + 64) 85), (Z.pow_add_r 2 (d - 24 + 64) 85) by lia.
    rewrite !Z.mul_assoc, Heq. reflexivity.
  - rewrite R, Hc. reflexivity.
Qed.

Lemma whole_seconds_are_exact_witness : timeStamp_of (1000 * 42) = F32.of_Z 42.
Proof.
  apply (whole_seconds_are_exact 42); [discriminate | reflexivity].
Defined.


Lemma telnet_filter_plain (payload : list byte) :
  ~ In xff payload -> telnet_filter payload = payload.
Proof.
  induction payload as [|b rest IH]; intro H; [reflexivity|]. simpl.
  destruct (Byte.eqb b xff) eqn:E.
  - exfalso. apply H. left. symmetry. now apply Byte.byte_dec_bl.
  - f_equal. apply IH. intro Hin. apply H. now right.
Qed.

Lemma telnet_filter_negotiation (options : list (byte * byte)) (payload : list byte) :
  telnet_filter (negotiation options ++ payload) = telnet_filter payload.
Proof.
  induction options as [|[c o] options IH]; [reflexivity|].
  unfold negotiation in *; simpl. exact IH.
Qed.

(** A telnet client's negotiation at the start of a session is stripped and
    the payload behind it is forwarded whole: with any number of three-byte
    IAC sequences followed by payload without 0xFF in the socket, the
    decoder receives exactly the payload. *)
Theorem negotiation_is_stripped
    (options : list (byte * byte)) (payload : list byte) (es : list Pass) (s : State) :
  rx s = negotiation options ++ payload ->
  ~ In xff payload ->
  Forall no_arrival es ->
  (List.length (rx s) <= List.length es)%nat ->
  written (passes es s) = written s ++ payload /\ rx (passes es s) = [].
Proof.
  intros Hrx Hp Hes Hlen. destruct (passes_drain es s Hes Hlen) as [Hw Hr].
  split; [|exact Hr].
  now rewrite Hw, Hrx, telnet_filter_negotiation, telnet_filter_plain.
Qed.

Lemma negotiation_is_stripped_witness :
  written (passes [idle_pass []; idle_pass []; idle_pass []; idle_pass []]
             (receive [xff; xfb; x01; "1"%byte] initial))
  = written (receive [xff; xfb; x01; "1"%byte] initial) ++ ["1"%byte] /\
  rx (passes [idle_pass []; idle_pass []; idle_pass []; idle_pass []]
        (receive [xff; xfb; x01; "1"%byte] initial)) = [].
Proof.
  apply (negotiation_is_stripped [(xfb, x01)] ["1"%byte]
           [idle_pass []; idle_pass []; idle_pass []; idle_pass []]
           (receive [xff; xfb; x01; "1"%byte] initial)).
  - reflexivity.
  - intros [H|H]; [discriminate H | exact H].
  - repeat constructor.
  - simpl. lia.
Defined.

(** An overflow is reported only in a pass whose poll returned true: such a
    pass prints the notice if the flag is set and leaves the flag clear; a
    pass whose poll returned false prints no notice and leaves a set flag
    set. *)
Theorem overflow_waits_for_data (e : Pass) (s : State) :
  overflow_count (tx (pass e s))
  = (overflow_count (tx s)
     + if p_ret (poll e) && (bufferOverflow s || p_overflow (poll e)) then 1 else 0)%nat /\
  bufferOverflow (pass e s)
  = if p_ret (poll e) then false else bufferOverflow s || p_overflow (poll e).
Proof.
  rewrite pass_spec; cbn [tx bufferOverflow]. split; [|reflexivity].
  unfold overflow_count. rewrite !count_lit_app.
  fold (overflow_count (greet_items s)) (overflow_count (keybus_items e s)).
  now rewrite greet_items_overflow, keybus_items_overflow.
Qed.

(** ** setup() *)

(** The WiFi wait loop prints one dot and waits 500 ms for every failed
    status check, and is left exactly when a check succeeds. *)
Theorem wifi_wait_dots (answers : list bool) (b : Board) :
  wifi_wait answers b
  = (existsb (fun a => a) answers,
     mkBoard (console b ++ dots (failures answers))
             (waited b + 500 * Z.of_nat (failures answers))
             (serverBegun b) (hideKeypadDigits b) (processModuleData b)
             (displayTrailingBits b) (dscBegun b)).
Proof.
  revert b; induction answers as [|a rest IH]; intro b.
  - destruct b; simpl. f_equal. f_equal; [|lia].
    clear. induction console0; simpl; [reflexivity | now f_equal].
  - destruct a.
    + destruct b; simpl. f_equal. f_equal; [|lia].
      clear. induction console0; simpl; [reflexivity | now f_equal].
    + cbn [wifi_wait existsb orb failures]. rewrite IH. f_equal.
      unfold delay, board_print; cbn [console waited serverBegun hideKeypadDigits
        processModuleData displayTrailingBits dscBegun].
      f_equal; [|lia]. rewrite string_app_assoc. reflexivity.
Qed.

Lemma board_print_mk (text c : string) (w : Z) (a h p d g : bool) :
  board_print text (mkBoard c w a h p d g) = mkBoard (c ++ text) w a h p d g.
Proof. reflexivity. Qed.

Lemma delay_mk (ms : Z) (c : string) (w : Z) (a h p d g : bool) :
  delay ms (mkBoard c w a h p d g) = mkBoard c (w + ms) a h p d g.
Proof. reflexivity. Qed.

Lemma ipServer_begin_mk (c : string) (w : Z) (a h p d g : bool) :
  ipServer_begin (mkBoard c w a h p d g) = mkBoard c w true h p d g.
Proof. reflexivity. Qed.

Lemma configure_dsc_mk (c : string) (w : Z) (a h p d g : bool) :
  configure_dsc (mkBoard c w a h p d g) = mkBoard c w a false true false true.
Proof. reflexivity. Qed.

(** What [setup()] does, in full: it comes online exactly when the WiFi
    connects and [MDNS.begin] succeeds, after 1000 ms plus 500 ms per failed
    status check, with the banner, one dot per failed check, the address,
    the server line and the online line on [Serial], the server begun and
    the decoder begun with module data processing on; when [MDNS.begin]
    fails it prints the error and halts with neither begun. *)
Theorem setup_outcome (net : Network) :
  let n := failures (statuses net) in
  let banner := (CRLF ++ CRLF ++ "WiFi" ++ dots n)%string in
  setup net
  = if existsb (fun a => a) (statuses net)
    then if mdns net
         then Online (mkBoard
                (banner ++ "connected: " ++ localIP net ++ CRLF
                   ++ "Server started: dsc.local:23" ++ CRLF
                   ++ "DSC Keybus Interface is online." ++ CRLF)
                (1000 + 500 * Z.of_nat n) true false true false true)
         else Halted (mkBoard
                (banner ++ "connected: " ++ localIP net ++ CRLF
                   ++ "Error setting up MDNS responder." ++ CRLF)
                (1000 + 500 * Z.of_nat n) false false false false false)
    else Waiting (mkBoard banner (1000 + 500 * Z.of_nat n)
                          false false false false false).
Proof.
  intros n banner. subst n banner. unfold setup, reset, board_println.
  cbv zeta. rewrite delay_mk, !board_print_mk, wifi_wait_dots.
  cbn [console waited serverBegun hideKeypadDigits processModuleData
       displayTrailingBits dscBegun].
  destruct (existsb (fun a => a) (statuses net)); [destruct (mdns net)|];
    cbn [negb];
    rewrite ?board_print_mk, ?ipServer_begin_mk, ?board_print_mk,
            ?configure_dsc_mk, ?board_print_mk;
    f_equal; f_equal; rewrite ?string_app_assoc; reflexivity.
Qed.
